(** * The product-listing API route: [app/routes/($locale).api.products.tsx]

    A shallow embedding of the route's [loader]: the query-string
    parameters [query], [sortKey], [reverse] and [count] are read from the
    request URL, one [storefront.query] is awaited, and the listing is
    returned together with the parameters that produced it.

    The platform functions the loader calls ([URLSearchParams], [parseInt],
    [invariant], [flattenConnection], [json]) are modelled from their
    standards (WHATWG URL and Encoding, ECMAScript) and packages. *)

From Stdlib Require Import ZArith NArith List String Ascii Bool Lia.
Import ListNotations.

Set Implicit Arguments.

(* ================================================================== *)
(** ** JavaScript strings *)
(* ================================================================== *)

(** A JavaScript string is a sequence of UTF-16 code units. *)
Definition code_unit := N.
Definition jsstring := list code_unit.

(** A string literal of the program text (ASCII) as a JavaScript string. *)
Definition str (s : string) : jsstring :=
  map N_of_ascii (list_ascii_of_string s).

(** The code unit of an ASCII character. *)
Definition chr (s : ascii) : code_unit := N_of_ascii s.

Module JsString.

(** [a === b] on two strings: the same sequence of code units. *)
Fixpoint eqb (a b : jsstring) : bool :=
  match a, b with
  | [], [] => true
  | x :: a', y :: b' => N.eqb x y && eqb a' b'
  | _, _ => false
  end.

(** [StrWhiteSpaceChar] of ECMAScript: WhiteSpace (TAB, VT, FF, ZWNBSP
    and the Unicode space separators) and LineTerminator (LF, CR, LS,
    PS). All of them are in the Basic Multilingual Plane. *)
Definition is_white_space (c : code_unit) : bool :=
  ((c =? 0x09) || (c =? 0x0A) || (c =? 0x0B) || (c =? 0x0C) || (c =? 0x0D)
   || (c =? 0x20) || (c =? 0xA0) || (c =? 0x1680)
   || ((0x2000 <=? c) && (c <=? 0x200A))
   || (c =? 0x2028) || (c =? 0x2029) || (c =? 0x202F) || (c =? 0x205F)
   || (c =? 0x3000) || (c =? 0xFEFF))%N.

(** [TrimString(string, start)]: leading white space removed. *)
Fixpoint trim_start (s : jsstring) : jsstring :=
  match s with
  | c :: s' => if is_white_space c then trim_start s' else s
  | [] => []
  end.

End JsString.

(** [a === b] where [a] may be [null] and [b] is a string. *)
Definition strict_equals (a : option jsstring) (b : jsstring) : bool :=
  match a with
  | Some s => JsString.eqb s b
  | None => false
  end.

(** [a ?? b]: [b] when [a] is [null], else [a]. *)
Definition nullish {A : Type} (a : option A) (b : A) : A :=
  match a with
  | Some v => v
  | None => b
  end.

(* ================================================================== *)
(** ** JavaScript numbers, as far as [count] takes them *)
(* ================================================================== *)

(** The Number values [count] can hold: the literal [12] and the results
    of [parseInt], which are [NaN], [-0], an integer-valued double or an
    infinity. [Int z] is the double whose mathematical value is [z]
    ([Int 0] is [+0]). *)
Inductive number : Type :=
| NaN
| NegZero
| Int (z : Z)
| Infinity (negative : bool).

Module Number.

(** The mathematical value of a finite number; [-0] and [+0] are both 0. *)
Definition value (x : number) : option Z :=
  match x with
  | Int z => Some z
  | NegZero => Some 0%Z
  | NaN | Infinity _ => None
  end.

(** A positive integer rounded to 53 significant bits, ties to even
    (the exponent is not bounded here). *)
Definition round53 (m : Z) : Z :=
  let bits := (Z.log2 m + 1)%Z in
  if (bits <=? 53)%Z then m
  else
    let sh := (bits - 53)%Z in
    let q := Z.shiftr m sh in
    let r := Z.land m (Z.ones sh) in
    let half := Z.shiftl 1 (sh - 1) in
    let up := (half <? r)%Z || ((r =? half)%Z && Z.odd q) in
    Z.shiftl (if up then q + 1 else q)%Z sh.

(** The Number value of a non-zero integer: round to nearest, ties to
    even; a magnitude that rounds to [2^1024] or more is an infinity. *)
Definition of_Z (x : Z) : number :=
  let m := round53 (Z.abs x) in
  if (2 ^ 1024 <=? m)%Z then Infinity (x <? 0)%Z
  else Int (Z.sgn x * m).

End Number.

(** The value of a code unit as a digit: [0-9], [a-z] and [A-Z] stand for
    0 to 35. *)
Definition digit_of (c : code_unit) : option Z :=
  if ((0x30 <=? c) && (c <=? 0x39))%N then Some (Z.of_N c - 0x30)%Z
  else if ((0x61 <=? c) && (c <=? 0x7A))%N then Some (Z.of_N c - 0x61 + 10)%Z
  else if ((0x41 <=? c) && (c <=? 0x5A))%N then Some (Z.of_N c - 0x41 + 10)%Z
  else None.

Definition is_radix_digit (R : Z) (c : code_unit) : bool :=
  match digit_of c with
  | Some d => (d <? R)%Z
  | None => false
  end.

(** The longest prefix of radix-[R] digits. *)
Fixpoint take_digits (R : Z) (s : jsstring) : jsstring :=
  match s with
  | c :: s' => if is_radix_digit R c then c :: take_digits R s' else []
  | [] => []
  end.

(** The integer a sequence of digits stands for in radix [R]. *)
Definition digits_value (R : Z) (ds : jsstring) : Z :=
  fold_left (fun acc c => acc * R + nullish (digit_of c) 0)%Z ds 0%Z.

(** The second half of [parseInt], on the string without its sign:
    [0x] or [0X] is dropped and selects radix 16 (else the radix is 10);
    the longest prefix of digits is the number, and the rest of the
    string is ignored. No digit at all gives [NaN].

    For more than 20 significant decimal digits ECMAScript lets an
    implementation round from an approximation; the exact value is used
    here. *)
Definition parse_digits (sign : Z) (unsigned : jsstring) : number :=
  let '(R, body) :=
    match unsigned with
    | c0 :: c1 :: rest =>
        if ((c0 =? chr "0") && ((c1 =? chr "x") || (c1 =? chr "X")))%N
        then (16%Z, rest) else (10%Z, unsigned)
    | _ => (10%Z, unsigned)
    end in
  match take_digits R body with
  | [] => NaN
  | digits =>
      let mathInt := digits_value R digits in
      if (mathInt =? 0)%Z then
        if (sign =? -1)%Z then NegZero else Int 0
      else Number.of_Z (sign * mathInt)
  end.

(** [parseInt(string)] of ECMAScript, called with one argument (the radix
    is [undefined]): leading white space is dropped, then a sign, and the
    digits that follow are read. Nothing is thrown. *)
Definition parseInt (string : jsstring) : number :=
  let inputString := JsString.trim_start string in
  let sign :=
    match inputString with
    | c :: _ => if (c =? chr "-")%N then (-1)%Z else 1%Z
    | [] => 1%Z
    end in
  let unsigned :=
    match inputString with
    | c :: rest =>
        if ((c =? chr "+") || (c =? chr "-"))%N then rest else inputString
    | [] => inputString
    end in
  parse_digits sign unsigned.

(* ================================================================== *)
(** ** [URLSearchParams] (WHATWG URL) *)
(* ================================================================== *)

Definition byte := N.

(** UTF-8 decoding (WHATWG Encoding, "UTF-8 decode without BOM"): a
    malformed sequence becomes U+FFFD and the byte that ended it is read
    again. *)
Module Utf8.

Record state : Type := {
  code_point : N;
  bytes_seen : N;
  bytes_needed : N;
  lower_boundary : N;
  upper_boundary : N
}.

Definition initial : state :=
  {| code_point := 0; bytes_seen := 0; bytes_needed := 0;
     lower_boundary := 0x80; upper_boundary := 0xBF |}.

Inductive step : Type :=
| Emit (cp : N)
| Continue (st : state)
| Malformed.

(** A byte read when no bytes are needed. *)
Definition lead (b : byte) : step :=
  (if b <=? 0x7F then Emit b
   else if (0xC2 <=? b) && (b <=? 0xDF) then
     Continue {| code_point := N.land b 0x1F; bytes_seen := 0;
                 bytes_needed := 1;
                 lower_boundary := 0x80; upper_boundary := 0xBF |}
   else if (0xE0 <=? b) && (b <=? 0xEF) then
     Continue {| code_point := N.land b 0xF; bytes_seen := 0;
                 bytes_needed := 2;
                 lower_boundary := if b =? 0xE0 then 0xA0 else 0x80;
                 upper_boundary := if b =? 0xED then 0x9F else 0xBF |}
   else if (0xF0 <=? b) && (b <=? 0xF4) then
     Continue {| code_point := N.land b 0x7; bytes_seen := 0;
                 bytes_needed := 3;
                 lower_boundary := if b =? 0xF0 then 0x90 else 0x80;
                 upper_boundary := if b =? 0xF4 then 0x8F else 0xBF |}
   else Malformed)%N.

Definition replacement : N := 0xFFFD.

Fixpoint decode_from (st : state) (bytes : list byte) : list N :=
  match bytes with
  | [] => if (bytes_needed st =? 0)%N then [] else [replacement]
  | b :: rest =>
      let after_lead :=
        match lead b with
        | Emit cp => cp :: decode_from initial rest
        | Continue st' => decode_from st' rest
        | Malformed => replacement :: decode_from initial rest
        end in
      if (bytes_needed st =? 0)%N then after_lead
      else if ((b <? lower_boundary st) || (upper_boundary st <? b))%N then
        replacement :: after_lead
      else
        let cp := N.lor (N.shiftl (code_point st) 6) (N.land b 0x3F) in
        let seen := (bytes_seen st + 1)%N in
        if (seen =? bytes_needed st)%N then cp :: decode_from initial rest
        else
          decode_from {| code_point := cp; bytes_seen := seen;
                         bytes_needed := bytes_needed st;
                         lower_boundary := 0x80; upper_boundary := 0xBF |}
                      rest
  end.

(** A code point as UTF-16 code units. *)
Definition utf16 (cp : N) : jsstring :=
  (if cp <? 0x10000 then [cp]
   else
     let c := cp - 0x10000 in
     [0xD800 + N.shiftr c 10; 0xDC00 + N.land c 0x3FF])%N.

Definition decode (bytes : list byte) : jsstring :=
  flat_map utf16 (decode_from initial bytes).

End Utf8.

Module URLSearchParams.

(** The object's list of name-value pairs, in order; a name can occur
    more than once. *)
Definition t := list (jsstring * jsstring).

(** [searchParams.get(name)]: the value of the first pair named [name],
    or [null]. *)
Fixpoint get (searchParams : t) (name : jsstring) : option jsstring :=
  match searchParams with
  | [] => None
  | (n, v) :: rest => if JsString.eqb n name then Some v else get rest name
  end.

(** The byte sequences between the separators. *)
Fixpoint split_on (sep : byte) (input : list byte) : list (list byte) :=
  match input with
  | [] => [[]]
  | b :: rest =>
      if (b =? sep)%N then [] :: split_on sep rest
      else
        match split_on sep rest with
        | s :: ss => (b :: s) :: ss
        | [] => [[b]]
        end
  end.

(** The bytes before the first [sep] and, when there is one, the bytes
    after it. *)
Fixpoint break_at (sep : byte) (bytes : list byte)
  : list byte * option (list byte) :=
  match bytes with
  | [] => ([], None)
  | b :: rest =>
      if (b =? sep)%N then ([], Some rest)
      else let '(name, value) := break_at sep rest in (b :: name, value)
  end.

Definition hex_digit (b : byte) : option N :=
  (if (0x30 <=? b) && (b <=? 0x39) then Some (b - 0x30)
   else if (0x41 <=? b) && (b <=? 0x46) then Some (b - 0x41 + 10)
   else if (0x61 <=? b) && (b <=? 0x66) then Some (b - 0x61 + 10)
   else None)%N.

(** Percent-decoding: [%] followed by two hexadecimal digits is the
    byte they denote; any other byte stands for itself. *)
Fixpoint percent_decode (bytes : list byte) : list byte :=
  match bytes with
  | [] => []
  | b :: rest =>
      if (b =? 0x25)%N then
        match rest with
        | h :: l :: rest' =>
            match hex_digit h, hex_digit l with
            | Some hi, Some lo => (16 * hi + lo)%N :: percent_decode rest'
            | _, _ => b :: percent_decode rest
            end
        | _ => b :: percent_decode rest
        end
      else b :: percent_decode rest
  end.

Definition plus_to_space (bytes : list byte) : list byte :=
  map (fun b => if (b =? 0x2B)%N then 0x20%N else b) bytes.

Definition decode_component (bytes : list byte) : jsstring :=
  Utf8.decode (percent_decode (plus_to_space bytes)).

(** The [application/x-www-form-urlencoded] parser. *)
Definition parse (input : list byte) : t :=
  flat_map
    (fun bytes : list byte =>
       match bytes with
       | [] => []
       | _ =>
           let '(name, value) := break_at 0x3D%N bytes in
           [(decode_component name, decode_component (nullish value []))]
       end)
    (split_on 0x26%N input).

(** [new URLSearchParams(init)] for a string [init]: a leading [?] is
    removed and the rest is parsed. [init] is [url.search], which the
    URL serializer keeps within ASCII, so its UTF-8 encoding is the
    string's own bytes. *)
Definition new (init : string) : t :=
  let init :=
    match init with
    | String c rest => if Ascii.eqb c "?" then rest else init
    | EmptyString => init
    end in
  parse (map N_of_ascii (list_ascii_of_string init)).

End URLSearchParams.

(* ================================================================== *)
(** ** The loader's data *)
(* ================================================================== *)

(** The four local variables of the loader, which are also the object
    returned as [searchParams] (the specification calls them
    [QueryParameters], with [searchText] for [query] and [pageSize] for
    [count]). [sortKey] is a string at run time: the cast to
    [ProductSortKeys] is erased. *)
Module QueryParameters.
Record t : Type := {
  query : jsstring;
  sortKey : jsstring;
  reverse : bool;
  count : number
}.
End QueryParameters.

(** The [variables] of the storefront query. *)
Module Variables.
Record t : Type := {
  count : number;
  query : jsstring;
  reverse : bool;
  sortKey : jsstring;
  country : jsstring;
  language : jsstring
}.
End Variables.

Module I18n.
Record t : Type := { country : jsstring; language : jsstring }.
End I18n.

(** What the loader reads of [context.storefront]. *)
Record Storefront : Type := { i18n : I18n.t }.
Record AppLoadContext : Type := { storefront : Storefront }.

(** The request, by the [search] component of [new URL(request.url)]:
    empty, or [?] followed by the percent-encoded query. The URL of a
    [Request] is always a valid one, so [new URL] does not throw. *)
Record Request : Type := { url_search : string }.

Record LoaderFunctionArgs : Type := {
  request : Request;
  context : AppLoadContext
}.

(** The result of [storefront.CacheLong()]. *)
Inductive CachingStrategy : Type := CacheLong.

Record QueryOptions : Type := {
  variables : Variables.t;
  cache : CachingStrategy
}.

(** The query document, by its operation name. *)
Definition API_ALL_PRODUCTS_QUERY : string := "ApiAllProducts".

(** What can be thrown: an [Error] with its message, or the reason the
    promise of [storefront.query] was rejected with. *)
Inductive exn : Type :=
| Error (message : string)
| Rejection (reason : string).

(** A block of statements over the local variable it assigns: the
    variable's value when the block is left, and the exception if it is
    left by a [throw]. *)
Definition stmt (V : Type) : Type := V -> V * option exn.

(** [try { block } catch (e) { handler }] *)
Definition try_catch {V : Type} (block : stmt V) (handler : exn -> stmt V)
  : stmt V :=
  fun v =>
    match block v with
    | (v', Some e) => handler e v'
    | (v', None) => (v', None)
    end.

(** The empty block, [// noop]. *)
Definition noop {V : Type} : stmt V := fun v => (v, None).

(** [x = value;] *)
Definition assign {V : Type} (value : V) : stmt V := fun _ => (value, None).

(** A connection as the query selects it: [products { nodes { ... } }].
    [Product] is a node of the [ProductCard] fragment, which
    [~/data/fragments] defines; the loader passes the nodes on untouched. *)
Record Connection (Product : Type) : Type := { nodes : list Product }.

(** The object [storefront.query] resolves to; [products] can be missing
    or [null]. *)
Module Data.
Record t (Product : Type) : Type := { products : option (Connection Product) }.
End Data.

Inductive QueryResult (Product : Type) : Type :=
| Fulfilled (data : Data.t Product)
| Rejected (reason : string).

Arguments Rejected {Product} reason.

(** The object handed to [json]. *)
Module LoaderData.
Record t (Product : Type) : Type := {
  products : list Product;
  searchParams : QueryParameters.t
}.
End LoaderData.

(** The [Response] that [json(data)] builds, by its status and the data
    it serializes. *)
Record Response (Product : Type) : Type := {
  status : Z;
  body : LoaderData.t Product
}.

(** The loader as a program: it returns, throws, or awaits
    [storefront.query(query, options)] and goes on with what the promise
    settles to. *)
Inductive prog (Product A : Type) : Type :=
| Ret (a : A)
| Throw (e : exn)
| StorefrontQuery (query : string) (options : QueryOptions)
                  (k : QueryResult Product -> prog Product A).

Arguments Ret {Product A} a.
Arguments Throw {Product A} e.
Arguments StorefrontQuery {Product A} query options k.

Fixpoint bind {Product A B : Type} (p : prog Product A)
  (f : A -> prog Product B) : prog Product B :=
  match p with
  | Ret a => f a
  | Throw e => Throw e
  | StorefrontQuery q o k => StorefrontQuery q o (fun r => bind (k r) f)
  end.

Notation "x <- p ;; k" := (bind p (fun x => k))
  (at level 61, p at next level, right associativity).

(** A block run on a local variable declared with [let]; an exception
    that leaves the block leaves the function. *)
Definition exec {Product V : Type} (block : stmt V) (init : V)
  : prog Product V :=
  match block init with
  | (v, None) => Ret v
  | (_, Some e) => Throw e
  end.

(** One outbound call, as the storefront client sees it. *)
Record Call : Type := {
  call_query : string;
  call_options : QueryOptions
}.

(** The program run against a storefront client: the calls it made, in
    order, and how it ended. *)
Fixpoint run {Product A : Type}
  (client : string -> QueryOptions -> QueryResult Product)
  (p : prog Product A) : list Call * (A + exn) :=
  match p with
  | Ret a => ([], inl a)
  | Throw e => ([], inr e)
  | StorefrontQuery q o k =>
      let '(calls, outcome) := run client (k (client q o)) in
      ({| call_query := q; call_options := o |} :: calls, outcome)
  end.

(** A program that makes no call: it has returned or thrown. *)
Definition settled {Product A : Type} (p : prog Product A) : bool :=
  match p with
  | Ret _ | Throw _ => true
  | StorefrontQuery _ _ _ => false
  end.

(* ================================================================== *)
(** ** The loader *)
(* ================================================================== *)

Section Loader.

Context {Product : Type}.

(** [process.env.NODE_ENV === 'production'], which [invariant] reads. *)
Variable isProduction : bool.

(** [invariant(condition, message)] of tiny-invariant, on a value that
    is an object or [null]/[undefined]: it returns when the value is
    truthy, and the value is then known not to be [null] (the function
    is typed [asserts condition]); otherwise it throws an [Error]. *)
Definition invariant {A : Type} (condition : option A) (message : string)
  : prog Product A :=
  match condition with
  | Some value => Ret value
  | None =>
      Throw (Error (if isProduction then "Invariant failed"
                    else "Invariant failed: " ++ message)%string)
  end.

(** [flattenConnection(connection)] of Hydrogen on a connection that
    has [nodes]. *)
Definition flattenConnection (connection : Connection Product)
  : list Product :=
  nodes connection.

(** [json(data)] of Remix: a response with status 200. *)
Definition json (data : LoaderData.t Product) : Response Product :=
  {| status := 200; body := data |}.

(** [await storefront.query(query, options)]: the data the promise is
    fulfilled with; a rejection is thrown at the [await]. *)
Definition storefront_query (query : string) (options : QueryOptions)
  : prog Product (Data.t Product) :=
  StorefrontQuery query options
    (fun result =>
       match result with
       | Fulfilled data => Ret data
       | Rejected reason => Throw (Rejection reason)
       end).

(** Lines 19 to 41 of the loader: the four parameters read from
    [searchParams] (the specification's [build]). *)
Definition loader_params (searchParams : URLSearchParams.t)
  : prog Product QueryParameters.t :=
  let query :=
    nullish (URLSearchParams.get searchParams (str "query")) (str "") in
  let sortKey :=
    nullish (URLSearchParams.get searchParams (str "sortKey"))
            (str "BEST_SELLING") in
  reverse <-
    exec (try_catch
            (fun reverse =>
               let _reverse :=
                 URLSearchParams.get searchParams (str "reverse") in
               if strict_equals _reverse (str "true")
               then assign true reverse
               else noop reverse)
            (fun _ => noop))
         false ;;
  count <-
    exec (try_catch
            (fun count =>
               let _count :=
                 URLSearchParams.get searchParams (str "count") in
               match _count with
               | Some string => assign (parseInt string) count
               | None => noop count
               end)
            (fun _ => noop))
         (Int 12) ;;
  Ret {| QueryParameters.query := query;
         QueryParameters.sortKey := sortKey;
         QueryParameters.reverse := reverse;
         QueryParameters.count := count |}.

Definition loader (args : LoaderFunctionArgs)
  : prog Product (Response Product) :=
  let storefront := storefront (context args) in
  let searchParams := URLSearchParams.new (url_search (request args)) in
  params <- loader_params searchParams ;;
  let query := QueryParameters.query params in
  let sortKey := QueryParameters.sortKey params in
  let reverse := QueryParameters.reverse params in
  let count := QueryParameters.count params in
  data <-
    storefront_query API_ALL_PRODUCTS_QUERY
      {| variables :=
           {| Variables.count := count;
              Variables.query := query;
              Variables.reverse := reverse;
              Variables.sortKey := sortKey;
              Variables.country := I18n.country (i18n storefront);
              Variables.language := I18n.language (i18n storefront) |};
         cache := CacheLong |} ;;
  products <-
    invariant (Data.products data)
              "No data returned from top products query" ;;
  Ret (json {| LoaderData.products := flattenConnection products;
               LoaderData.searchParams :=
                 {| QueryParameters.query := query;
                    QueryParameters.sortKey := sortKey;
                    QueryParameters.reverse := reverse;
                    QueryParameters.count := count |} |}).

End Loader.

(* ================================================================== *)
(** ** The vocabulary of the specification *)
(* ================================================================== *)

(** A decimal digit, [0] to [9]. *)
Definition is_decimal_digit (c : code_unit) : bool :=
  ((0x30 <=? c) && (c <=? 0x39))%N.

(** The integer a decimal numeral denotes, by the weight of each place. *)
Fixpoint decimal (ds : jsstring) : Z :=
  match ds with
  | [] => 0
  | d :: ds' => (Z.of_N d - 0x30) * 10 ^ Z.of_nat (List.length ds') + decimal ds'
  end%Z.

(** A decimal numeral: one digit or more, and nothing else. *)
Definition numeral (ds : jsstring) : option Z :=
  match ds with
  | [] => None
  | _ => if forallb is_decimal_digit ds then Some (decimal ds) else None
  end.

(** A valid integer string, and the integer it denotes: an optional sign
    and a decimal numeral. *)
Definition integer_string (s : jsstring) : option Z :=
  match s with
  | [] => None
  | c :: ds =>
      if (c =? chr "-")%N then option_map Z.opp (numeral ds)
      else if (c =? chr "+")%N then numeral ds
      else numeral s
  end.

(** The string begins with [0x] or [0X]. *)
Definition hex_prefixed (s : jsstring) : bool :=
  match s with
  | c0 :: c1 :: _ =>
      ((c0 =? chr "0") && ((c1 =? chr "x") || (c1 =? chr "X")))%N
  | _ => false
  end.

(** The Number that [parseInt] makes of the sign [sign] and the
    magnitude [v]. *)
Definition signed_number (sign v : Z) : number :=
  if (v =? 0)%Z then
    if (sign =? -1)%Z then NegZero else Int 0
  else Number.of_Z (sign * v).

(** The variables the loader sends for the parameters [params]. *)
Definition variables_of (params : QueryParameters.t) (locale : I18n.t)
  : Variables.t :=
  {| Variables.count := QueryParameters.count params;
     Variables.query := QueryParameters.query params;
     Variables.reverse := QueryParameters.reverse params;
     Variables.sortKey := QueryParameters.sortKey params;
     Variables.country := I18n.country locale;
     Variables.language := I18n.language locale |}.

(** The specification's [DataIntegrityError]: the [Error] that
    [invariant] throws with the loader's message. *)
Definition DataIntegrityError (isProduction : bool) : exn :=
  Error (if isProduction then "Invariant failed"
         else "Invariant failed: No data returned from top products query").

(** The parameters when all four keys are absent. *)
Definition default_params : QueryParameters.t :=
  {| QueryParameters.query := str "";
     QueryParameters.sortKey := str "BEST_SELLING";
     QueryParameters.reverse := false;
     QueryParameters.count := Int 12 |}.

(** What the storefront client answers to the call a program awaits. *)
Definition answer {Product A : Type}
  (client : string -> QueryOptions -> QueryResult Product)
  (p : prog Product A) : option (QueryResult Product) :=
  match p with
  | StorefrontQuery query options _ => Some (client query options)
  | Ret _ | Throw _ => None
  end.

(** Sample inputs: a request for a given [url.search] in a US/EN
    storefront, and two clients. *)
Definition sample_context : AppLoadContext :=
  {| storefront :=
       {| i18n := {| I18n.country := str "US"; I18n.language := str "EN" |} |} |}.

Definition sample_args (search : string) : LoaderFunctionArgs :=
  {| request := {| url_search := search |}; context := sample_context |}.

Definition null_client (_ : string) (_ : QueryOptions) : QueryResult unit :=
  Fulfilled {| Data.products := None |}.

Definition two_products_client (_ : string) (_ : QueryOptions)
  : QueryResult unit :=
  Fulfilled {| Data.products := Some {| nodes := [tt; tt] |} |}.

(* ================================================================== *)
(** ** More vocabulary: hexadecimal numerals *)
(* ================================================================== *)

(** A hexadecimal digit, [0-9], [a-f] or [A-F]. *)
Definition is_hex_digit (c : code_unit) : bool :=
  (((0x30 <=? c) && (c <=? 0x39)) || ((0x61 <=? c) && (c <=? 0x66))
   || ((0x41 <=? c) && (c <=? 0x46)))%N.

(** The value of a hexadecimal digit. *)
Definition hex_digit_value (c : code_unit) : Z :=
  if (c <=? 0x39)%N then (Z.of_N c - 0x30)%Z
  else if (c <=? 0x46)%N then (Z.of_N c - 0x41 + 10)%Z
  else (Z.of_N c - 0x61 + 10)%Z.

(** The integer a hexadecimal numeral denotes, by the weight of each
    place. *)
Fixpoint hexadecimal (hs : jsstring) : Z :=
  match hs with
  | [] => 0
  | h :: hs' =>
      hex_digit_value h * 16 ^ Z.of_nat (List.length hs') + hexadecimal hs'
  end%Z.

(** The string is empty, or starts with a code unit that is neither
    white space, a sign nor a decimal digit: no number can be read from
    it. *)
Definition no_number_start (s : jsstring) : bool :=
  match s with
  | [] => true
  | c :: _ =>
      negb (JsString.is_white_space c) && negb (c =? chr "+")%N
      && negb (c =? chr "-")%N && negb (is_decimal_digit c)
  end.

(* ================================================================== *)
(** ** Writing the query string: [set] and the serializer (WHATWG URL) *)
(* ================================================================== *)

(** UTF-8 encoding of a JavaScript string (Web IDL [USVString] and the
    WHATWG UTF-8 encoder). *)
Module Utf8Encode.

Definition is_lead_surrogate (c : code_unit) : bool :=
  ((0xD800 <=? c) && (c <=? 0xDBFF))%N.

Definition is_trail_surrogate (c : code_unit) : bool :=
  ((0xDC00 <=? c) && (c <=? 0xDFFF))%N.

(** The scalar values of a string: a surrogate pair is one code point,
    and a surrogate that is not part of a pair becomes U+FFFD. *)
Fixpoint scalar_values (s : jsstring) : list N :=
  match s with
  | [] => []
  | c :: rest =>
      if is_trail_surrogate c then 0xFFFD%N :: scalar_values rest
      else if is_lead_surrogate c then
        match rest with
        | d :: rest' =>
            if is_trail_surrogate d then
              (0x10000 + (c - 0xD800) * 0x400 + (d - 0xDC00))%N
              :: scalar_values rest'
            else 0xFFFD%N :: scalar_values rest
        | [] => [0xFFFD%N]
        end
      else c :: scalar_values rest
  end.

(** The [i]-th continuation byte, counted from the last. *)
Definition continuation (cp : N) (i : N) : byte :=
  N.lor 0x80 (N.land (N.shiftr cp (6 * i)) 0x3F).

Definition encode_code_point (cp : N) : list byte :=
  (if cp <=? 0x7F then [cp]
   else if cp <=? 0x7FF then
     [N.shiftr cp 6 + 0xC0; continuation cp 0]
   else if cp <=? 0xFFFF then
     [N.shiftr cp 12 + 0xE0; continuation cp 1; continuation cp 0]
   else
     [N.shiftr cp 18 + 0xF0; continuation cp 2; continuation cp 1;
      continuation cp 0])%N.

Definition encode (s : jsstring) : list byte :=
  flat_map encode_code_point (scalar_values s).

End Utf8Encode.

Module URLSearchParamsWrite.

(** The pairs of the list whose name is not [name]. *)
Definition remove (searchParams : URLSearchParams.t) (name : jsstring)
  : URLSearchParams.t :=
  filter (fun pair => negb (JsString.eqb (fst pair) name)) searchParams.

(** [searchParams.set(name, value)]: the first pair named [name] takes
    the value and the other pairs of that name are removed; when there
    is none, the pair is appended. *)
Fixpoint set (searchParams : URLSearchParams.t) (name value : jsstring)
  : URLSearchParams.t :=
  match searchParams with
  | [] => [(name, value)]
  | (n, v) :: rest =>
      if JsString.eqb n name then (n, value) :: remove rest name
      else (n, v) :: set rest name value
  end.

(** The bytes the serializer leaves as they are: ASCII letters and
    digits, and [*], [-], [.] and [_]. *)
Definition unreserved (b : byte) : bool :=
  (((0x30 <=? b) && (b <=? 0x39)) || ((0x41 <=? b) && (b <=? 0x5A))
   || ((0x61 <=? b) && (b <=? 0x7A))
   || (b =? 0x2A) || (b =? 0x2D) || (b =? 0x2E) || (b =? 0x5F))%N.

(** An upper-case hexadecimal digit. *)
Definition hex_char (d : N) : byte :=
  (if d <? 10 then 0x30 + d else 0x41 + (d - 10))%N.

(** One byte, percent-encoded for a form: a space is [+], an unreserved
    byte is itself, and any other byte is [%] and two hexadecimal
    digits. *)
Definition encode_byte (b : byte) : list byte :=
  (if b =? 0x20 then [0x2B]
   else if unreserved b then [b]
   else [0x25; hex_char (b / 16); hex_char (b mod 16)])%N.

Definition encode_component (s : jsstring) : list byte :=
  flat_map encode_byte (Utf8Encode.encode s).

(** The [application/x-www-form-urlencoded] serializer:
    [name=value] for each pair, joined by [&]. *)
Fixpoint serialize (searchParams : URLSearchParams.t) : list byte :=
  match searchParams with
  | [] => []
  | (name, value) :: rest =>
      encode_component name ++ 0x3D%N :: encode_component value
      ++ match rest with
         | [] => []
         | _ => 0x26%N :: serialize rest
         end
  end.

(** The bytes of an ASCII string as a string. *)
Definition string_of_bytes (bytes : list byte) : string :=
  string_of_list_ascii (map ascii_of_N bytes).

(** [url.search] once the list of [url.searchParams] has been updated:
    empty when the query is empty, else [?] and the serialized list. *)
Definition search (searchParams : URLSearchParams.t) : string :=
  match serialize searchParams with
  | [] => EmptyString
  | query => String "?" (string_of_bytes query)
  end.

End URLSearchParamsWrite.

(* ================================================================== *)
(** ** More vocabulary: well-formed strings, bytes, decoder states *)
(* ================================================================== *)

(** A Unicode scalar value: a code point that is not a surrogate. *)
Definition is_scalar_value (cp : N) : bool :=
  ((cp <? 0xD800) || ((0xDFFF <? cp) && (cp <? 0x110000)))%N.

(** A string is well formed when its code units are 16 bits wide and
    every surrogate is half of a pair. *)
Fixpoint well_formed (s : jsstring) : bool :=
  match s with
  | [] => true
  | c :: rest =>
      if Utf8Encode.is_lead_surrogate c then
        match rest with
        | d :: rest' => Utf8Encode.is_trail_surrogate d && well_formed rest'
        | [] => false
        end
      else
        negb (Utf8Encode.is_trail_surrogate c) && (c <? 0x10000)%N
        && well_formed rest
  end.

(** Every name and value of the list is well formed. *)
Definition well_formed_params (searchParams : URLSearchParams.t) : bool :=
  forallb (fun pair => well_formed (fst pair) && well_formed (snd pair))
          searchParams.

(** A byte proper, below 256. *)
Definition is_byte (b : byte) : bool := (b <? 256)%N.

(** A byte other than [sep]. *)
Definition differs (sep : byte) (b : byte) : bool := negb (b =? sep)%N.

(** What the serializer writes for a name or a value: bytes that are
    neither [&] nor [=]. *)
Definition plain (b : byte) : bool :=
  is_byte b && differs 0x26%N b && differs 0x3D%N b.

(** One pair, as the serializer writes it. *)
Definition pair_bytes (name value : jsstring) : list byte :=
  URLSearchParamsWrite.encode_component name
  ++ 0x3D%N :: URLSearchParamsWrite.encode_component value.

(** What the parser makes of the bytes between two [&]. *)
Definition parse_sequence (bytes : list byte) : URLSearchParams.t :=
  match bytes with
  | [] => []
  | _ =>
      let '(name, value) := URLSearchParams.break_at 0x3D%N bytes in
      [(URLSearchParams.decode_component name,
        URLSearchParams.decode_component (nullish value []))]
  end.

(** A state of the decoder from which only scalar values can come: no
    byte is awaited, or the code points that the awaited bytes can still
    complete all lie below the surrogates, or all above them and within
    Unicode. *)
Definition pending_ok (st : Utf8.state) : Prop :=
  Utf8.bytes_needed st = 0%N \/
  ((Utf8.bytes_seen st < Utf8.bytes_needed st <= 3)%N /\
   (0x80 <= Utf8.lower_boundary st)%N /\
   (Utf8.upper_boundary st <= 0xBF)%N /\
   let weight := (64 ^ (Utf8.bytes_needed st - Utf8.bytes_seen st - 1))%N in
   let least :=
     ((Utf8.code_point st * 64 + (Utf8.lower_boundary st - 0x80))
      * weight)%N in
   let most :=
     ((Utf8.code_point st * 64 + (Utf8.upper_boundary st - 0x80) + 1)
      * weight)%N in
   (most <= 0xD800 \/ (0xE000 <= least /\ most <= 0x110000))%N).

(* ================================================================== *)
(** ** Numbers on the page: JSON, [+] and [toString] *)
(* ================================================================== *)

Module NumberToString.

(** The decimal digits of a non-negative integer, most significant
    first; [fuel] bounds their number. *)
Fixpoint digits_from (fuel : nat) (n : Z) (acc : jsstring) : jsstring :=
  let acc' := Z.to_N (0x30 + n mod 10) :: acc in
  match fuel with
  | O => acc'
  | S fuel' => if (n <? 10)%Z then acc' else digits_from fuel' (n / 10) acc'
  end.

Definition decimal_digits (n : Z) : jsstring :=
  digits_from (Z.to_nat (Z.log2 n)) n [].

(** [s * 10^p] is read back as the double [m]. *)
Definition reads_back (m p s : Z) : bool :=
  (0 <? s)%Z &&
  match Number.of_Z (s * 10 ^ p) with
  | Int m' => (m' =? m)%Z
  | _ => false
  end.

(** The shortest digits [s] and the power of ten [p] with [s * 10^p]
    read back as [m], searched from the largest power down; of two
    candidates the one nearer to [m] is taken, and the even one when
    they are as near. *)
Fixpoint shortest_from (fuel : nat) (m p : Z) : Z * Z :=
  let lo := (m / 10 ^ p)%Z in
  let hi := (lo + 1)%Z in
  let below := (m - lo * 10 ^ p)%Z in
  let above := (hi * 10 ^ p - m)%Z in
  match reads_back m p lo, reads_back m p hi with
  | true, true =>
      if (below <? above)%Z then (lo, p)
      else if (above <? below)%Z then (hi, p)
      else if Z.even lo then (lo, p) else (hi, p)
  | true, false => (lo, p)
  | false, true => (hi, p)
  | false, false =>
      match fuel with
      | O => (m, 0%Z)
      | S fuel' => shortest_from fuel' m (p - 1)
      end
  end.

(** [Number::toString] for a positive integer-valued double [m]. Up to
    [2^53] every integer is a double of its own, so the digits are the
    decimal expansion. Beyond, the shortest digits that read back as [m]
    are written, followed by zeros, or in exponent form from 22 digits
    on (the digits are chosen as ECMAScript recommends). *)
Definition of_positive (m : Z) : jsstring :=
  if (m <=? 2 ^ 53)%Z then decimal_digits m
  else
    let width := List.length (decimal_digits m) in
    let '(s, p) := shortest_from width m (Z.of_nat width) in
    let digits := decimal_digits s in
    let n := (Z.of_nat (List.length digits) + p)%Z in
    if (n <=? 21)%Z then digits ++ repeat (chr "0") (Z.to_nat p)
    else
      match digits with
      | [] => []
      | [d] => d :: str "e+" ++ decimal_digits (n - 1)
      | d :: more => d :: chr "." :: more ++ str "e+" ++ decimal_digits (n - 1)
      end.

End NumberToString.

Module NumberOps.

(** [x.toString()] *)
Definition toString (x : number) : jsstring :=
  match x with
  | NaN => str "NaN"
  | NegZero => str "0"
  | Infinity false => str "Infinity"
  | Infinity true => str "-Infinity"
  | Int z =>
      if (z =? 0)%Z then str "0"
      else if (z <? 0)%Z then chr "-" :: NumberToString.of_positive (- z)
      else NumberToString.of_positive z
  end.

(** [x + k] for a Number [x] (or [null], which counts as 0) and a
    non-zero integer literal [k]. The sum of two doubles is the double
    nearest to their exact sum. *)
Definition add_literal (x : option number) (k : Z) : number :=
  match x with
  | None | Some NegZero => Int k
  | Some NaN => NaN
  | Some (Infinity negative) => Infinity negative
  | Some (Int z) => if (z + k =? 0)%Z then Int 0 else Number.of_Z (z + k)
  end.

(** [length >= x] for the length of an array and a Number [x] or
    [null]. *)
Definition length_ge (length : nat) (x : option number) : bool :=
  match x with
  | None | Some NegZero => true
  | Some NaN => false
  | Some (Infinity negative) => negative
  | Some (Int z) => (z <=? Z.of_nat length)%Z
  end.

(** A Number after [JSON.stringify] and [JSON.parse]: [NaN] and the
    infinities are written as [null], [-0] as [0], and any other double
    reads back as itself. *)
Definition json (x : number) : option number :=
  match x with
  | NaN | Infinity _ => None
  | NegZero => Some (Int 0)
  | Int z => Some (Int z)
  end.

End NumberOps.

(* ================================================================== *)
(** ** The page: [ProductsApiRoute] *)
(* ================================================================== *)

(** [searchParams] as the component has it: the loader's object after
    the JSON of the response, where [count] can have become [null]. *)
Module PageParams.
Record t : Type := {
  query : jsstring;
  sortKey : jsstring;
  reverse : bool;
  count : option number
}.
End PageParams.

(** [useLoaderData()]: the data of the loader's response, read from its
    JSON. Strings, booleans and the product nodes read back as they
    were. *)
Definition useLoaderData {Product : Type} (response : Response Product)
  : list Product * PageParams.t :=
  let data := body response in
  let searchParams := LoaderData.searchParams data in
  (LoaderData.products data,
   {| PageParams.query := QueryParameters.query searchParams;
      PageParams.sortKey := QueryParameters.sortKey searchParams;
      PageParams.reverse := QueryParameters.reverse searchParams;
      PageParams.count := NumberOps.json (QueryParameters.count searchParams) |}).

(** The [TypeError] of reading a property of [null]. *)
Inductive TypeError : Type :=
| CannotReadPropertiesOfNull (property : string).

(** What the component computes for its markup: the heading, the number
    in "Found n products", the default values of the two selects, the
    products of the grid (the "No products found" block stands in for an
    empty grid) and whether the "Load More Products" button is there. *)
Record View (Product : Type) : Type := {
  heading : jsstring;
  found : nat;
  sortKey_defaultValue : jsstring;
  count_defaultValue : jsstring;
  no_products_found : bool;
  grid : list Product;
  load_more : bool
}.

(** The body of [ProductsApiRoute], lines 68 to 156. The expressions are
    evaluated in the order of the markup; the only one that can throw is
    [searchParams.count.toString()]. *)
Definition ProductsApiRoute {Product : Type}
  (loaderData : list Product * PageParams.t) : View Product + TypeError :=
  let '(products, searchParams) := loaderData in
  let heading :=
    match PageParams.query searchParams with
    | [] => str "All Products"
    | query => str "Products for " ++ 0x22%N :: query ++ [0x22%N]
    end in
  match PageParams.count searchParams with
  | None => inr (CannotReadPropertiesOfNull "toString")
  | Some count =>
      inl {| heading := heading;
             found := List.length products;
             sortKey_defaultValue := PageParams.sortKey searchParams;
             count_defaultValue := NumberOps.toString count;
             no_products_found := Nat.eqb (List.length products) 0;
             grid := products;
             load_more :=
               NumberOps.length_ge (List.length products) (Some count) |}
  end.

(** What the three handlers do: the parameters of the current address
    are read, one of them is set, and the browser is sent to the address
    with the new parameters. The address is given and returned by its
    [search]; its other parts stay as they are. *)
Definition navigate (location_search : string) (name value : jsstring)
  : string :=
  let url_searchParams := URLSearchParams.new location_search in
  URLSearchParamsWrite.search
    (URLSearchParamsWrite.set url_searchParams name value).

(** [onChange] of the sort select, lines 91 to 95. *)
Definition sortKey_onChange (location_search : string)
  (target_value : jsstring) : string :=
  navigate location_search (str "sortKey") target_value.

(** [onChange] of the page-size select, lines 106 to 110. *)
Definition count_onChange (location_search : string)
  (target_value : jsstring) : string :=
  navigate location_search (str "count") target_value.

(** [onClick] of "Load More Products", lines 144 to 148, for the
    [searchParams] the component was rendered with. *)
Definition loadMore_onClick (searchParams : PageParams.t)
  (location_search : string) : string :=
  navigate location_search (str "count")
    (NumberOps.toString
       (NumberOps.add_literal (PageParams.count searchParams) 12)).

(** The tags block of [ProductCard], lines 235 to 249: nothing when the
    product has no tags; else a badge for each of the first three tags
    and, when there are more than three, a badge "+n" for the number of
    the others. [tags] is [product.tags], an array of strings or
    missing. *)
Definition tag_badges (tags : option (list jsstring))
  : option (list jsstring * option nat) :=
  match tags with
  | None => None
  | Some tags =>
      if Nat.ltb 0 (List.length tags) then
        Some (firstn 3 tags,
              if Nat.ltb 3 (List.length tags)
              then Some (List.length tags - 3)%nat
              else None)
      else None
  end.

Unset Implicit Arguments.

(* ================================================================== *)
(** ** Strings *)
(* ================================================================== *)

Lemma JsString_eqb_eq (a b : jsstring) : JsString.eqb a b = true <-> a = b.
Proof.
  revert b; induction a as [|x a IH]; intros [|y b]; simpl;
    try (split; [discriminate | discriminate]); try tauto.
  rewrite andb_true_iff, N.eqb_eq, IH.
  split; [intros [-> ->]; reflexivity | intros E; inversion E; auto].
Qed.

Lemma strict_equals_eq (a : option jsstring) (b : jsstring) :
  strict_equals a b = true <-> a = Some b.
Proof.
  destruct a as [s|]; simpl.
  - rewrite JsString_eqb_eq. split; [intros ->; reflexivity | congruence].
  - split; discriminate.
Qed.

(* ================================================================== *)
(** ** The parameters in closed form *)
(* ================================================================== *)

Section Params.

Variable Product : Type.

(** The try blocks never throw: [loader_params] returns, and what it
    returns is read off the four lookups. *)
Lemma loader_params_eq (searchParams : URLSearchParams.t) :
  @loader_params Product searchParams =
  Ret {| QueryParameters.query :=
           nullish (URLSearchParams.get searchParams (str "query")) (str "");
         QueryParameters.sortKey :=
           nullish (URLSearchParams.get searchParams (str "sortKey"))
                   (str "BEST_SELLING");
         QueryParameters.reverse :=
           strict_equals (URLSearchParams.get searchParams (str "reverse"))
                         (str "true");
         QueryParameters.count :=
           match URLSearchParams.get searchParams (str "count") with
           | Some string => parseInt string
           | None => Int 12
           end |}.
Proof.
  unfold loader_params, exec, try_catch, assign, noop.
  destruct (strict_equals _ _);
    destruct (URLSearchParams.get searchParams (str "count"));
    reflexivity.
Qed.

End Params.

(* ================================================================== *)
(** ** Numbers *)
(* ================================================================== *)

Lemma round53_exact (m : Z) :
  (0 <= m <= 2 ^ 53)%Z -> Number.round53 m = m.
Proof.
  intros [Hlo Hhi].
  destruct (Z.eq_dec m (2 ^ 53)) as [-> | Hne]; [reflexivity |].
  unfold Number.round53.
  destruct (Z.eq_dec m 0) as [-> | Hz]; [reflexivity |].
  assert (Z.log2 m < 53)%Z by (apply Z.log2_lt_pow2; lia).
  destruct (Z.leb_spec (Z.log2 m + 1) 53); [reflexivity | lia].
Qed.

(** Integers up to [2^53] in magnitude are Number values. *)
Lemma of_Z_exact (x : Z) :
  (Z.abs x <= 2 ^ 53)%Z -> Number.of_Z x = Int x.
Proof.
  intros H. unfold Number.of_Z.
  rewrite round53_exact by lia.
  assert (2 ^ 53 < 2 ^ 1024)%Z by (apply Z.pow_lt_mono_r; lia).
  destruct (Z.leb_spec (2 ^ 1024) (Z.abs x)); [lia |].
  f_equal. destruct x; simpl; lia.
Qed.

(* ================================================================== *)
(** ** Digits *)
(* ================================================================== *)

Lemma decimal_digit_bounds (c : code_unit) :
  is_decimal_digit c = true <-> (0x30 <= c <= 0x39)%N.
Proof.
  unfold is_decimal_digit.
  rewrite andb_true_iff, !N.leb_le. reflexivity.
Qed.

Lemma digit_of_decimal (c : code_unit) :
  is_decimal_digit c = true -> digit_of c = Some (Z.of_N c - 0x30)%Z.
Proof. intros H. unfold digit_of. unfold is_decimal_digit in H. rewrite H. reflexivity. Qed.

Lemma is_radix_digit_10 (c : code_unit) :
  is_radix_digit 10 c = is_decimal_digit c.
Proof.
  unfold is_radix_digit, digit_of, is_decimal_digit.
  destruct ((0x30 <=? c) && (c <=? 0x39))%N eqn:E.
  - apply andb_true_iff in E. rewrite !N.leb_le in E.
    apply Z.ltb_lt. lia.
  - destruct ((0x61 <=? c) && (c <=? 0x7A))%N eqn:E1.
    + apply andb_true_iff in E1. rewrite !N.leb_le in E1.
      apply Z.ltb_ge. lia.
    + destruct ((0x41 <=? c) && (c <=? 0x5A))%N eqn:E2; [|reflexivity].
      apply andb_true_iff in E2. rewrite !N.leb_le in E2.
      apply Z.ltb_ge. lia.
Qed.

Lemma decimal_digit_not_space (c : code_unit) :
  is_decimal_digit c = true -> JsString.is_white_space c = false.
Proof.
  rewrite decimal_digit_bounds. intros H.
  unfold JsString.is_white_space.
  repeat match goal with
         | |- context [(c =? ?k)%N] =>
             destruct (N.eqb_spec c k); [lia |]
         end.
  destruct (N.leb_spec 0x2000 c); [lia | reflexivity].
Qed.

Lemma decimal_digit_not_sign (c : code_unit) :
  is_decimal_digit c = true ->
  (c =? chr "-")%N = false /\ (c =? chr "+")%N = false.
Proof.
  rewrite decimal_digit_bounds. intros H. unfold chr; simpl.
  split; apply N.eqb_neq; lia.
Qed.

Lemma decimal_digit_not_x (c : code_unit) :
  is_decimal_digit c = true ->
  ((c =? chr "x") || (c =? chr "X"))%N = false.
Proof.
  rewrite decimal_digit_bounds. intros H. unfold chr; simpl.
  apply orb_false_iff; split; apply N.eqb_neq; lia.
Qed.

Lemma decimal_nonneg (ds : jsstring) :
  forallb is_decimal_digit ds = true -> (0 <= decimal ds)%Z.
Proof.
  induction ds as [|d ds IH]; simpl; [lia |].
  rewrite andb_true_iff, decimal_digit_bounds. intros [Hd Hds].
  specialize (IH Hds).
  assert (0 <= 10 ^ Z.of_nat (List.length ds))%Z by (apply Z.pow_nonneg; lia).
  nia.
Qed.

(** Reading the digits left to right gives the value by place. *)
Lemma fold_digits_decimal (ds : jsstring) (acc : Z) :
  forallb is_decimal_digit ds = true ->
  fold_left (fun a c => a * 10 + nullish (digit_of c) 0)%Z ds acc
  = (acc * 10 ^ Z.of_nat (List.length ds) + decimal ds)%Z.
Proof.
  revert acc; induction ds as [|d ds IH]; intros acc; simpl fold_left.
  - intros _. simpl. lia.
  - intros H. simpl in H. apply andb_true_iff in H. destruct H as [Hd Hds].
    rewrite IH by assumption.
    rewrite (digit_of_decimal _ Hd). simpl nullish.
    change (decimal (d :: ds))
      with ((Z.of_N d - 0x30) * 10 ^ Z.of_nat (List.length ds) + decimal ds)%Z.
    replace (Z.of_nat (List.length (d :: ds)))
      with (Z.succ (Z.of_nat (List.length ds))) by (simpl List.length; lia).
    rewrite Z.pow_succ_r by lia. ring.
Qed.

Lemma digits_value_decimal (ds : jsstring) :
  forallb is_decimal_digit ds = true -> digits_value 10 ds = decimal ds.
Proof.
  intros H. unfold digits_value. rewrite fold_digits_decimal by assumption.
  lia.
Qed.

(** The digits of a numeral are taken whole, up to the first code unit
    that is not a digit. *)
Lemma take_digits_numeral (ds tail : jsstring) :
  forallb is_decimal_digit ds = true ->
  match tail with [] => true | c :: _ => negb (is_decimal_digit c) end = true ->
  take_digits 10 (ds ++ tail) = ds.
Proof.
  intros Hds Htail. induction ds as [|d ds IH]; simpl.
  - destruct tail as [|c tail]; [reflexivity |]. simpl.
    rewrite is_radix_digit_10. apply negb_true_iff in Htail. rewrite Htail.
    reflexivity.
  - simpl in Hds. apply andb_true_iff in Hds. destruct Hds as [Hd Hds].
    rewrite is_radix_digit_10, Hd, IH by assumption. reflexivity.
Qed.

(* ================================================================== *)
(** ** [parseInt] on numerals *)
(* ================================================================== *)

Lemma numeral_Some (ds : jsstring) (v : Z) :
  numeral ds = Some v ->
  ds <> [] /\ forallb is_decimal_digit ds = true /\ v = decimal ds.
Proof.
  unfold numeral. destruct ds as [|d ds]; [discriminate |].
  destruct (forallb is_decimal_digit (d :: ds)); [|discriminate].
  intros E; inversion E. repeat split. discriminate.
Qed.

Lemma numeral_not_hex (ds : jsstring) :
  forallb is_decimal_digit ds = true -> hex_prefixed ds = false.
Proof.
  destruct ds as [|c0 [|c1 rest]]; try reflexivity.
  intros H. simpl in H. rewrite !andb_true_iff in H. destruct H as (_ & H1 & _).
  unfold hex_prefixed.
  rewrite (decimal_digit_not_x _ H1). apply andb_false_r.
Qed.

Lemma parse_digits_numeral (sign : Z) (ds tail : jsstring) :
  ds <> [] ->
  forallb is_decimal_digit ds = true ->
  match tail with [] => true | c :: _ => negb (is_decimal_digit c) end = true ->
  hex_prefixed (ds ++ tail) = false ->
  parse_digits sign (ds ++ tail) = signed_number sign (decimal ds).
Proof.
  intros Hne Hds Htail Hhex.
  assert (E : parse_digits sign (ds ++ tail)
              = match take_digits 10 (ds ++ tail) with
                | [] => NaN
                | digits => signed_number sign (digits_value 10 digits)
                end).
  { unfold parse_digits, hex_prefixed in *.
    destruct (ds ++ tail) as [|c0 [|c1 rest]]; try reflexivity.
    rewrite Hhex. reflexivity. }
  rewrite E, take_digits_numeral by assumption.
  destruct ds as [|d ds]; [congruence |].
  rewrite digits_value_decimal by assumption. reflexivity.
Qed.

Lemma parseInt_numeral (ds tail : jsstring) :
  ds <> [] ->
  forallb is_decimal_digit ds = true ->
  match tail with [] => true | c :: _ => negb (is_decimal_digit c) end = true ->
  hex_prefixed (ds ++ tail) = false ->
  parseInt (ds ++ tail) = signed_number 1 (decimal ds).
Proof.
  intros Hne Hds Htail Hhex.
  rewrite <- (parse_digits_numeral 1 ds tail Hne Hds Htail Hhex).
  destruct ds as [|d ds]; [congruence |].
  simpl in Hds. apply andb_true_iff in Hds. destruct Hds as [Hd _].
  unfold parseInt. simpl app. simpl JsString.trim_start.
  rewrite (decimal_digit_not_space _ Hd).
  destruct (decimal_digit_not_sign _ Hd) as [-> ->]. reflexivity.
Qed.

Lemma parse_digits_whole (sign : Z) (ds : jsstring) :
  ds <> [] -> forallb is_decimal_digit ds = true ->
  parse_digits sign ds = signed_number sign (decimal ds).
Proof.
  intros Hne Hds.
  pose proof (parse_digits_numeral sign ds [] Hne Hds eq_refl) as H.
  rewrite app_nil_r in H. apply H, numeral_not_hex, Hds.
Qed.

Lemma parseInt_whole (ds : jsstring) :
  ds <> [] -> forallb is_decimal_digit ds = true ->
  parseInt ds = signed_number 1 (decimal ds).
Proof.
  intros Hne Hds.
  pose proof (parseInt_numeral ds [] Hne Hds eq_refl) as H.
  rewrite app_nil_r in H. apply H, numeral_not_hex, Hds.
Qed.

Lemma parseInt_minus (ds : jsstring) :
  parseInt (chr "-" :: ds) = parse_digits (-1) ds.
Proof. reflexivity. Qed.

Lemma parseInt_plus (ds : jsstring) :
  parseInt (chr "+" :: ds) = parse_digits 1 ds.
Proof. reflexivity. Qed.

Lemma signed_number_value (sign v : Z) :
  (sign = 1 \/ sign = -1)%Z -> (0 <= v <= 2 ^ 53)%Z ->
  Number.value (signed_number sign v) = Some (sign * v)%Z.
Proof.
  intros Hs Hv. unfold signed_number.
  destruct (Z.eqb_spec v 0) as [-> | Hnz].
  - destruct Hs as [-> | ->]; reflexivity.
  - rewrite of_Z_exact; [reflexivity |].
    destruct Hs as [-> | ->]; lia.
Qed.

(** [parseInt] reads a valid integer string as the integer it denotes,
    up to the precision of a Number. *)
Lemma parseInt_integer_string (s : jsstring) (z : Z) :
  integer_string s = Some z -> (Z.abs z <= 2 ^ 53)%Z ->
  Number.value (parseInt s) = Some z.
Proof.
  unfold integer_string. destruct s as [|c ds]; [discriminate |].
  destruct (N.eqb_spec c (chr "-")) as [-> | Hm].
  - destruct (numeral ds) as [v|] eqn:E; [|discriminate].
    cbn [option_map]. intros Hz Hb. inversion Hz; subst z.
    apply numeral_Some in E. destruct E as (Hne & Hds & ->).
    pose proof (decimal_nonneg _ Hds).
    rewrite parseInt_minus, parse_digits_whole by assumption.
    rewrite signed_number_value by lia. f_equal; lia.
  - destruct (N.eqb_spec c (chr "+")) as [-> | Hp]; intros E Hb;
      apply numeral_Some in E; destruct E as (Hne & Hds & ->);
      pose proof (decimal_nonneg _ Hds).
    + rewrite parseInt_plus, parse_digits_whole by assumption.
      rewrite signed_number_value by lia. f_equal; lia.
    + rewrite parseInt_whole by assumption.
      rewrite signed_number_value by lia. f_equal; lia.
Qed.

(* ================================================================== *)
(** ** The loader in closed form *)
(* ================================================================== *)

Section LoaderShape.

Variable Product : Type.
Variable isProduction : bool.

(** Whatever the query string holds, the parameters are returned: no
    exception leaves the two try blocks. *)
Lemma loader_params_returns (searchParams : URLSearchParams.t) :
  exists params, @loader_params Product searchParams = Ret params.
Proof. eexists. apply loader_params_eq. Qed.

(** The loader awaits one query, whose variables are the parameters and
    the locale, and then settles: a rejection is passed on, missing
    products fail the invariant, and a connection is returned with the
    parameters. *)
Lemma loader_shape (args : LoaderFunctionArgs) :
  exists params (k : QueryResult Product -> prog Product (Response Product)),
    @loader_params Product (URLSearchParams.new (url_search (request args)))
    = Ret params /\
    loader isProduction args
    = StorefrontQuery API_ALL_PRODUCTS_QUERY
        {| variables := variables_of params (i18n (storefront (context args)));
           cache := CacheLong |} k /\
    (forall reason, k (Rejected reason) = Throw (Rejection reason)) /\
    k (Fulfilled {| Data.products := None |})
    = Throw (DataIntegrityError isProduction) /\
    (forall connection,
        k (Fulfilled {| Data.products := Some connection |})
        = Ret (json {| LoaderData.products := nodes connection;
                       LoaderData.searchParams := params |})).
Proof.
  unfold loader. rewrite loader_params_eq.
  eexists; eexists. split; [reflexivity |].
  split; [reflexivity |].
  split; [reflexivity |].
  split; [destruct isProduction; reflexivity | reflexivity].
Qed.

End LoaderShape.

(** The three ways the call can settle: a connection, no [products], or
    a rejection. *)
Ltac by_answer r :=
  destruct r as [[[?connection|]] | ?reason].

Section LoaderRun.

Variable Product : Type.
Variable isProduction : bool.

(** How a run of the loader against a storefront client ends: one call,
    and an outcome decided by what the client answers to it. *)
Lemma loader_run (client : string -> QueryOptions -> QueryResult Product)
  (args : LoaderFunctionArgs) :
  exists params,
    @loader_params Product (URLSearchParams.new (url_search (request args)))
    = Ret params /\
    let options :=
      {| variables := variables_of params (i18n (storefront (context args)));
         cache := CacheLong |} in
    run client (loader isProduction args)
    = ([{| call_query := API_ALL_PRODUCTS_QUERY; call_options := options |}],
       match client API_ALL_PRODUCTS_QUERY options with
       | Rejected reason => inr (Rejection reason)
       | Fulfilled {| Data.products := None |} =>
           inr (DataIntegrityError isProduction)
       | Fulfilled {| Data.products := Some connection |} =>
           inl (json {| LoaderData.products := nodes connection;
                        LoaderData.searchParams := params |})
       end).
Proof.
  destruct (loader_shape Product isProduction args)
    as (params & k & Hp & Hl & Hrej & Hnull & Hsome).
  exists params. split; [assumption |].
  cbv zeta. rewrite Hl. cbn [run].
  by_answer (client API_ALL_PRODUCTS_QUERY
               {| variables :=
                    variables_of params (i18n (storefront (context args)));
                  cache := CacheLong |}).
  - rewrite Hsome. reflexivity.
  - rewrite Hnull. reflexivity.
  - rewrite Hrej. reflexivity.
Qed.

End LoaderRun.

(* ================================================================== *)
(** ** The parameters *)
(* ================================================================== *)

(** C3. When none of the keys [query], [sortKey], [reverse] and [count]
    is present, the parameters are exactly
    [{query: "", sortKey: "BEST_SELLING", reverse: false, count: 12}]. *)
Theorem params_default (Product : Type) (searchParams : URLSearchParams.t) :
  URLSearchParams.get searchParams (str "query") = None ->
  URLSearchParams.get searchParams (str "sortKey") = None ->
  URLSearchParams.get searchParams (str "reverse") = None ->
  URLSearchParams.get searchParams (str "count") = None ->
  @loader_params Product searchParams = Ret default_params.
Proof.
  intros Hq Hs Hr Hc.
  rewrite loader_params_eq, Hq, Hs, Hr, Hc. reflexivity.
Qed.

Lemma params_default_witness :
  @loader_params unit (URLSearchParams.new "?page=2") = Ret default_params.
Proof.
  apply (params_default unit (URLSearchParams.new "?page=2")); reflexivity.
Defined.

(** C4. [reverse] is true exactly when the raw value of the key
    [reverse] is the string ["true"]; the values ["1"], ["True"], [""]
    and an absent key all give false. *)
Theorem reverse_iff_true (Product : Type) (searchParams : URLSearchParams.t) :
  exists params,
    @loader_params Product searchParams = Ret params /\
    (QueryParameters.reverse params = true <->
     URLSearchParams.get searchParams (str "reverse") = Some (str "true")) /\
    (In (URLSearchParams.get searchParams (str "reverse"))
        [Some (str "1"); Some (str "True"); Some (str ""); None] ->
     QueryParameters.reverse params = false).
Proof.
  eexists. split; [apply loader_params_eq |].
  cbn [QueryParameters.reverse]. split.
  - apply strict_equals_eq.
  - intros H. apply not_true_iff_false. rewrite strict_equals_eq.
    intros E. rewrite E in H.
    repeat (destruct H as [H | H]; [discriminate H |]). exact H.
Qed.

Lemma reverse_iff_true_witness :
  exists params,
    @loader_params unit (URLSearchParams.new "?reverse=True") = Ret params /\
    QueryParameters.reverse params = false.
Proof.
  destruct (reverse_iff_true unit (URLSearchParams.new "?reverse=True"))
    as (params & Hp & _ & H).
  exists params. split; [exact Hp |].
  apply H. right; left. reflexivity.
Defined.

(** C1, as the code has it. When [count] is a valid integer string (an
    optional sign and decimal digits) of magnitude at most [2^53], the
    page size is the integer it denotes. *)
Theorem count_of_integer_string (Product : Type)
  (searchParams : URLSearchParams.t) (s : jsstring) (z : Z) :
  URLSearchParams.get searchParams (str "count") = Some s ->
  integer_string s = Some z ->
  (Z.abs z <= 2 ^ 53)%Z ->
  exists params,
    @loader_params Product searchParams = Ret params /\
    Number.value (QueryParameters.count params) = Some z.
Proof.
  intros Hget Hs Hz.
  eexists. split; [apply loader_params_eq |].
  cbn [QueryParameters.count]. rewrite Hget.
  apply parseInt_integer_string; assumption.
Qed.

Lemma count_of_integer_string_witness :
  exists params,
    @loader_params unit (URLSearchParams.new "?count=-24") = Ret params /\
    Number.value (QueryParameters.count params) = Some (-24)%Z.
Proof.
  apply (count_of_integer_string unit (URLSearchParams.new "?count=-24")
           (str "-24") (-24)).
  - reflexivity.
  - reflexivity.
  - vm_compute. discriminate.
Defined.

(** C1 fails as stated. ["24px"] is not a valid integer string and the
    page size is 24, not 12; ["9007199254740993"] is a valid integer
    string and the page size is the nearest double, 9007199254740992. *)
Lemma count_of_integer_string_counterexample :
  (URLSearchParams.get (URLSearchParams.new "?count=24px") (str "count")
   = Some (str "24px") /\
   integer_string (str "24px") = None /\
   @loader_params unit (URLSearchParams.new "?count=24px")
   = Ret {| QueryParameters.query := str "";
            QueryParameters.sortKey := str "BEST_SELLING";
            QueryParameters.reverse := false;
            QueryParameters.count := Int 24 |} /\
   Int 24 <> Int 12) /\
  (URLSearchParams.get (URLSearchParams.new "?count=9007199254740993")
                       (str "count")
   = Some (str "9007199254740993") /\
   integer_string (str "9007199254740993") = Some 9007199254740993%Z /\
   @loader_params unit (URLSearchParams.new "?count=9007199254740993")
   = Ret {| QueryParameters.query := str "";
            QueryParameters.sortKey := str "BEST_SELLING";
            QueryParameters.reverse := false;
            QueryParameters.count := Int 9007199254740992 |} /\
   Int 9007199254740992 <> Int 9007199254740993).
Proof.
  repeat split; try reflexivity; discriminate.
Qed.

(** C6 fails on the code. For [?count=abc] the parameters are returned
    and nothing is thrown, but the parse failure is not absorbed into the
    default 12: the page size is [NaN], and [NaN] is what the loader
    sends to the storefront. *)
Theorem count_parse_failure_surfaces :
  @loader_params unit (URLSearchParams.new "?count=abc")
  = Ret {| QueryParameters.query := str "";
           QueryParameters.sortKey := str "BEST_SELLING";
           QueryParameters.reverse := false;
           QueryParameters.count := NaN |} /\
  @loader_params unit (URLSearchParams.new "?count=")
  = Ret {| QueryParameters.query := str "";
           QueryParameters.sortKey := str "BEST_SELLING";
           QueryParameters.reverse := false;
           QueryParameters.count := NaN |} /\
  exists options,
    fst (run null_client (loader false (sample_args "?count=abc")))
    = [{| call_query := API_ALL_PRODUCTS_QUERY; call_options := options |}] /\
    Variables.count (variables options) = NaN.
Proof.
  split; [reflexivity |]. split; [reflexivity |].
  eexists. split; reflexivity.
Qed.

(** C9, as the code has it. When [count] begins with a decimal numeral
    followed by a code unit that is not a digit, does not begin with [0x]
    or [0X], and the numeral is at most [2^53], the page size is the
    value of the numeral. *)
Theorem count_of_numeral_prefix (Product : Type)
  (searchParams : URLSearchParams.t) (ds : jsstring) (c : code_unit)
  (rest : jsstring) (v : Z) :
  URLSearchParams.get searchParams (str "count") = Some (ds ++ c :: rest) ->
  numeral ds = Some v ->
  is_decimal_digit c = false ->
  hex_prefixed (ds ++ c :: rest) = false ->
  (v <= 2 ^ 53)%Z ->
  exists params,
    @loader_params Product searchParams = Ret params /\
    QueryParameters.count params = Int v.
Proof.
  intros Hget Hnum Hc Hhex Hv.
  apply numeral_Some in Hnum. destruct Hnum as (Hne & Hds & ->).
  eexists. split; [apply loader_params_eq |].
  cbn [QueryParameters.count]. rewrite Hget.
  rewrite parseInt_numeral; try assumption.
  - pose proof (decimal_nonneg _ Hds).
    unfold signed_number.
    destruct (Z.eqb_spec (decimal ds) 0) as [-> | Hnz]; [reflexivity |].
    rewrite of_Z_exact by lia. f_equal. lia.
  - rewrite Hc. reflexivity.
Qed.

Lemma count_of_numeral_prefix_witness :
  exists params,
    @loader_params unit (URLSearchParams.new "?count=8.9") = Ret params /\
    QueryParameters.count params = Int 8.
Proof.
  apply (count_of_numeral_prefix unit (URLSearchParams.new "?count=8.9")
           (str "8") (chr ".") (str "9") 8).
  - reflexivity.
  - reflexivity.
  - reflexivity.
  - reflexivity.
  - vm_compute. discriminate.
Defined.

(** C9 fails as stated. ["0x1F"] begins with the numeral ["0"] followed
    by ["x"], and the page size is 31; ["0xyz"] gives [NaN]; and a
    numeral beyond [2^53] is rounded. *)
Lemma count_of_numeral_prefix_counterexample :
  (numeral (str "0") = Some 0%Z /\
   is_decimal_digit (chr "x") = false /\
   @loader_params unit (URLSearchParams.new "?count=0x1F")
   = Ret {| QueryParameters.query := str "";
            QueryParameters.sortKey := str "BEST_SELLING";
            QueryParameters.reverse := false;
            QueryParameters.count := Int 31 |} /\
   Int 31 <> Int 0) /\
  (@loader_params unit (URLSearchParams.new "?count=0xyz")
   = Ret {| QueryParameters.query := str "";
            QueryParameters.sortKey := str "BEST_SELLING";
            QueryParameters.reverse := false;
            QueryParameters.count := NaN |}) /\
  (numeral (str "9007199254740993") = Some 9007199254740993%Z /\
   @loader_params unit (URLSearchParams.new "?count=9007199254740993px")
   = Ret {| QueryParameters.query := str "";
            QueryParameters.sortKey := str "BEST_SELLING";
            QueryParameters.reverse := false;
            QueryParameters.count := Int 9007199254740992 |}).
Proof.
  repeat split; try reflexivity; discriminate.
Qed.

(* ================================================================== *)
(** ** The loader *)
(* ================================================================== *)

(** C5. When the key [sortKey] is present, the [sortKey] variable of the
    outbound query is its raw value, whatever it is: nothing checks that
    it is a member of [ProductSortKeys]. *)
Theorem sortKey_forwarded (Product : Type) (isProduction : bool)
  (args : LoaderFunctionArgs) (raw : jsstring) :
  URLSearchParams.get (URLSearchParams.new (url_search (request args)))
                      (str "sortKey") = Some raw ->
  exists options (k : QueryResult Product -> prog Product (Response Product)),
    loader isProduction args
    = StorefrontQuery API_ALL_PRODUCTS_QUERY options k /\
    Variables.sortKey (variables options) = raw.
Proof.
  intros Hget.
  destruct (loader_shape Product isProduction args)
    as (params & k & Hp & Hl & _).
  rewrite loader_params_eq in Hp. injection Hp as <-.
  eexists; exists k. split; [exact Hl |].
  cbn [variables variables_of Variables.sortKey QueryParameters.sortKey].
  rewrite Hget. reflexivity.
Qed.

Lemma sortKey_forwarded_witness :
  exists options (k : QueryResult unit -> prog unit (Response unit)),
    loader false (sample_args "?sortKey=FOO")
    = StorefrontQuery API_ALL_PRODUCTS_QUERY options k /\
    Variables.sortKey (variables options) = str "FOO".
Proof.
  apply (sortKey_forwarded unit false (sample_args "?sortKey=FOO") (str "FOO")).
  reflexivity.
Defined.

(** C7. For [?query=shoes&count=8&sortKey=PRICE&reverse=true] the loader
    queries with [query = "shoes"], [count = 8], [sortKey = "PRICE"] and
    [reverse = true] (and the storefront's locale), and the response it
    returns for a connection has exactly these four values as
    [searchParams]. *)
Theorem scenario_shoes (Product : Type) (isProduction : bool)
  (context : AppLoadContext) :
  exists k : QueryResult Product -> prog Product (Response Product),
    loader isProduction
      {| request :=
           {| url_search := "?query=shoes&count=8&sortKey=PRICE&reverse=true" |};
         context := context |}
    = StorefrontQuery API_ALL_PRODUCTS_QUERY
        {| variables :=
             {| Variables.count := Int 8;
                Variables.query := str "shoes";
                Variables.reverse := true;
                Variables.sortKey := str "PRICE";
                Variables.country := I18n.country (i18n (storefront context));
                Variables.language := I18n.language (i18n (storefront context)) |};
           cache := CacheLong |} k /\
    forall connection,
      k (Fulfilled {| Data.products := Some connection |})
      = Ret {| status := 200;
               body :=
                 {| LoaderData.products := nodes connection;
                    LoaderData.searchParams :=
                      {| QueryParameters.query := str "shoes";
                         QueryParameters.sortKey := str "PRICE";
                         QueryParameters.reverse := true;
                         QueryParameters.count := Int 8 |} |} |}.
Proof.
  eexists. split; [reflexivity |]. intros connection. reflexivity.
Qed.

(** C8. The loader awaits exactly one [storefront.query], of the
    [ApiAllProducts] document, and produces its result (a response or an
    exception) only once that call has settled: whatever the call settles
    to, no other call follows. *)
Theorem one_query_awaited (Product : Type) (isProduction : bool)
  (args : LoaderFunctionArgs) :
  (exists options (k : QueryResult Product -> prog Product (Response Product)),
      loader isProduction args
      = StorefrontQuery API_ALL_PRODUCTS_QUERY options k /\
      forall result, settled (k result) = true) /\
  (forall client : string -> QueryOptions -> QueryResult Product,
      List.length (fst (run client (loader isProduction args))) = 1%nat).
Proof.
  split.
  - destruct (loader_shape Product isProduction args)
      as (params & k & _ & Hl & Hrej & Hnull & Hsome).
    eexists; exists k. split; [exact Hl |].
    intros result. by_answer result.
    + rewrite Hsome. reflexivity.
    + rewrite Hnull. reflexivity.
    + rewrite Hrej. reflexivity.
  - intros client.
    destruct (loader_run Product isProduction client args) as (params & _ & Hr).
    cbv zeta in Hr. rewrite Hr. reflexivity.
Qed.

(** C10. On every run of the loader that returns a response, the four
    values of the response's [searchParams] are the four variables of
    the one call that was made. *)
Theorem echoed_params_are_queried (Product : Type) (isProduction : bool)
  (args : LoaderFunctionArgs)
  (client : string -> QueryOptions -> QueryResult Product)
  (calls : list Call) (response : Response Product) :
  run client (loader isProduction args) = (calls, inl response) ->
  exists call,
    calls = [call] /\
    let sent := variables (call_options call) in
    let echoed := LoaderData.searchParams (body response) in
    QueryParameters.query echoed = Variables.query sent /\
    QueryParameters.sortKey echoed = Variables.sortKey sent /\
    QueryParameters.reverse echoed = Variables.reverse sent /\
    QueryParameters.count echoed = Variables.count sent.
Proof.
  intros Hrun.
  destruct (loader_run Product isProduction client args) as (params & _ & Hr).
  cbv zeta in Hr. rewrite Hr in Hrun.
  destruct (client _ _) as [[[connection|]] | reason];
    inversion Hrun; subst.
  eexists. split; [reflexivity |].
  cbn. repeat split; reflexivity.
Qed.

Lemma echoed_params_are_queried_witness :
  exists calls response call,
    run two_products_client (loader false (sample_args "?count=abc&query=hat"))
    = (calls, inl response) /\
    calls = [call] /\
    QueryParameters.count (LoaderData.searchParams (body response)) = NaN /\
    Variables.count (variables (call_options call)) = NaN.
Proof.
  destruct (echoed_params_are_queried unit false
              (sample_args "?count=abc&query=hat") two_products_client
              _ _ eq_refl) as (call & Hcalls & Hq & Hs & Hr & Hc).
  do 2 eexists. exists call.
  split; [reflexivity |]. split; [exact Hcalls |].
  injection Hcalls as <-. split; reflexivity.
Defined.

(** C2. When the storefront answers with no [products] object, the run
    ends with the [DataIntegrityError] and returns no response; and a
    run that fails at all fails either with that error, the products
    being missing, or with the rejection of the call itself, which the
    loader passes on. *)
Theorem null_products_fail (Product : Type) (isProduction : bool)
  (args : LoaderFunctionArgs)
  (client : string -> QueryOptions -> QueryResult Product) :
  let program := loader isProduction args in
  (answer client program = Some (Fulfilled {| Data.products := None |}) ->
   snd (run client program) = inr (DataIntegrityError isProduction)) /\
  (forall e,
      snd (run client program) = inr e ->
      (e = DataIntegrityError isProduction /\
       answer client program = Some (Fulfilled {| Data.products := None |})) \/
      (exists reason,
          e = Rejection reason /\
          answer client program = Some (Rejected reason))).
Proof.
  cbv zeta.
  destruct (loader_shape Product isProduction args)
    as (params & k & _ & Hl & Hrej & Hnull & Hsome).
  rewrite Hl. cbn [answer run].
  destruct (client _ _) as [[[connection|]] | reason].
  - rewrite Hsome. cbn [run snd]. split; [discriminate | discriminate].
  - rewrite Hnull. cbn [run snd]. split; [reflexivity |].
    intros e He. injection He as <-. left. split; reflexivity.
  - rewrite Hrej. cbn [run snd]. split; [discriminate |].
    intros e He. injection He as <-.
    right. exists reason. split; reflexivity.
Qed.

Lemma null_products_fail_witness :
  snd (run null_client (loader false (sample_args "?query=shoes")))
  = inr (Error "Invariant failed: No data returned from top products query").
Proof.
  apply (proj1 (null_products_fail unit false (sample_args "?query=shoes")
                  null_client)).
  reflexivity.
Defined.

(* ================================================================== *)
(** ** More on [parseInt] *)
(* ================================================================== *)

(** Leading white space does not count. *)
Lemma parseInt_trim (ws s : jsstring) :
  forallb JsString.is_white_space ws = true ->
  parseInt (ws ++ s) = parseInt s.
Proof.
  intros H. unfold parseInt.
  replace (JsString.trim_start (ws ++ s)) with (JsString.trim_start s);
    [reflexivity |].
  induction ws as [|w ws IH]; [reflexivity |].
  simpl in H. apply andb_true_iff in H. destruct H as [Hw Hws].
  simpl. rewrite Hw. apply IH, Hws.
Qed.

(** A string that starts with neither white space, a sign nor a decimal
    digit is not a number. *)
Lemma parseInt_no_digit (c : code_unit) (rest : jsstring) :
  JsString.is_white_space c = false ->
  (c =? chr "+")%N = false ->
  (c =? chr "-")%N = false ->
  is_decimal_digit c = false ->
  parseInt (c :: rest) = NaN.
Proof.
  intros Hw Hp Hm Hd. unfold parseInt.
  cbn [JsString.trim_start]. rewrite Hw, Hp, Hm. cbn [orb].
  unfold parse_digits.
  assert (H0 : (c =? chr "0")%N = false).
  { apply N.eqb_neq. intros ->. discriminate Hd. }
  destruct rest as [|c1 rest]; rewrite ?H0; cbn [andb];
    cbn [take_digits]; rewrite is_radix_digit_10, Hd; reflexivity.
Qed.

Lemma parseInt_not_a_number (s : jsstring) :
  no_number_start s = true -> parseInt s = NaN.
Proof.
  destruct s as [|c rest]; [reflexivity |].
  unfold no_number_start.
  rewrite !andb_true_iff, !negb_true_iff.
  intros (((Hw & Hp) & Hm) & Hd).
  apply parseInt_no_digit; assumption.
Qed.

Lemma hex_digit_of (c : code_unit) :
  is_hex_digit c = true -> digit_of c = Some (hex_digit_value c).
Proof.
  unfold is_hex_digit, digit_of, hex_digit_value.
  rewrite !orb_true_iff, !andb_true_iff, !N.leb_le.
  intros H.
  destruct (N.leb_spec 0x30 c), (N.leb_spec c 0x39), (N.leb_spec 0x61 c),
    (N.leb_spec c 0x7A), (N.leb_spec 0x41 c), (N.leb_spec c 0x5A),
    (N.leb_spec c 0x46); cbn [andb]; try reflexivity; try lia.
Qed.

Lemma is_radix_digit_16 (c : code_unit) :
  is_radix_digit 16 c = is_hex_digit c.
Proof.
  unfold is_radix_digit, digit_of, is_hex_digit.
  destruct (N.leb_spec 0x30 c), (N.leb_spec c 0x39), (N.leb_spec 0x61 c),
    (N.leb_spec c 0x7A), (N.leb_spec 0x41 c), (N.leb_spec c 0x5A),
    (N.leb_spec c 0x66), (N.leb_spec c 0x46); cbn [andb orb];
    try reflexivity; try lia;
    first [apply Z.ltb_lt; lia | apply Z.ltb_ge; lia].
Qed.

Lemma hex_digit_value_range (c : code_unit) :
  is_hex_digit c = true -> (0 <= hex_digit_value c < 16)%Z.
Proof.
  unfold is_hex_digit, hex_digit_value.
  rewrite !orb_true_iff, !andb_true_iff, !N.leb_le. intros H.
  destruct (N.leb_spec c 0x39), (N.leb_spec c 0x46); lia.
Qed.

Lemma hexadecimal_nonneg (hs : jsstring) :
  forallb is_hex_digit hs = true -> (0 <= hexadecimal hs)%Z.
Proof.
  induction hs as [|h hs IH]; simpl; [lia |].
  rewrite andb_true_iff. intros [Hh Hhs].
  pose proof (hex_digit_value_range h Hh). specialize (IH Hhs).
  assert (0 <= 16 ^ Z.of_nat (List.length hs))%Z by (apply Z.pow_nonneg; lia).
  nia.
Qed.

Lemma fold_digits_hexadecimal (hs : jsstring) (acc : Z) :
  forallb is_hex_digit hs = true ->
  fold_left (fun a c => a * 16 + nullish (digit_of c) 0)%Z hs acc
  = (acc * 16 ^ Z.of_nat (List.length hs) + hexadecimal hs)%Z.
Proof.
  revert acc; induction hs as [|h hs IH]; intros acc; simpl fold_left.
  - intros _. simpl. lia.
  - intros H. simpl in H. apply andb_true_iff in H. destruct H as [Hh Hhs].
    rewrite IH by assumption.
    rewrite (hex_digit_of _ Hh). cbn [nullish].
    change (hexadecimal (h :: hs))
      with (hex_digit_value h * 16 ^ Z.of_nat (List.length hs)
            + hexadecimal hs)%Z.
    replace (Z.of_nat (List.length (h :: hs)))
      with (Z.succ (Z.of_nat (List.length hs))) by (simpl List.length; lia).
    rewrite Z.pow_succ_r by lia. ring.
Qed.

Lemma take_digits_hexadecimal (hs tail : jsstring) :
  forallb is_hex_digit hs = true ->
  match tail with [] => true | c :: _ => negb (is_hex_digit c) end = true ->
  take_digits 16 (hs ++ tail) = hs.
Proof.
  intros Hhs Htail. induction hs as [|h hs IH]; simpl.
  - destruct tail as [|c tail]; [reflexivity |]. simpl.
    rewrite is_radix_digit_16. apply negb_true_iff in Htail. rewrite Htail.
    reflexivity.
  - simpl in Hhs. apply andb_true_iff in Hhs. destruct Hhs as [Hh Hhs].
    rewrite is_radix_digit_16, Hh, IH by assumption. reflexivity.
Qed.

(** After [0x] or [0X] the digits are read in radix 16. *)
Lemma parseInt_hexadecimal (x : code_unit) (hs tail : jsstring) :
  ((x =? chr "x") || (x =? chr "X"))%N = true ->
  hs <> [] ->
  forallb is_hex_digit hs = true ->
  match tail with [] => true | c :: _ => negb (is_hex_digit c) end = true ->
  parseInt (chr "0" :: x :: hs ++ tail) = signed_number 1 (hexadecimal hs).
Proof.
  intros Hx Hne Hhs Htail. unfold parseInt.
  cbn [JsString.trim_start].
  change (JsString.is_white_space (chr "0")) with false. cbv iota.
  change ((chr "0" =? chr "-")%N) with false.
  change ((chr "0" =? chr "+")%N) with false. cbn [orb]. cbv iota.
  unfold parse_digits.
  change ((chr "0" =? chr "0")%N) with true. cbn [andb]. rewrite Hx.
  rewrite take_digits_hexadecimal by assumption.
  destruct hs as [|h hs]; [congruence |].
  unfold digits_value. rewrite fold_digits_hexadecimal by assumption.
  unfold signed_number. rewrite Z.mul_0_l, Z.add_0_l. reflexivity.
Qed.

(* ================================================================== *)
(** ** More on the parameters *)
(* ================================================================== *)

(** When [count] is present and is empty, or starts with a code unit that
    is neither white space, a sign nor a decimal digit, the page size is
    [NaN]: the default 12 is used only when the key is absent. *)
Theorem count_not_a_number (Product : Type)
  (searchParams : URLSearchParams.t) (s : jsstring) :
  URLSearchParams.get searchParams (str "count") = Some s ->
  no_number_start s = true ->
  exists params,
    @loader_params Product searchParams = Ret params /\
    QueryParameters.count params = NaN.
Proof.
  intros Hget Hs.
  eexists. split; [apply loader_params_eq |].
  cbn [QueryParameters.count]. rewrite Hget.
  apply parseInt_not_a_number, Hs.
Qed.

Lemma count_not_a_number_witness :
  exists params,
    @loader_params unit (URLSearchParams.new "?count=twelve") = Ret params /\
    QueryParameters.count params = NaN.
Proof.
  apply (count_not_a_number unit (URLSearchParams.new "?count=twelve")
           (str "twelve")); reflexivity.
Defined.

(** White space before the number is skipped: [count] with leading white
    space gives the page size of the rest of the string. A [+] in the
    query string is such a space. *)
Theorem count_leading_space (Product : Type)
  (searchParams : URLSearchParams.t) (ws s : jsstring) :
  URLSearchParams.get searchParams (str "count") = Some (ws ++ s) ->
  forallb JsString.is_white_space ws = true ->
  exists params,
    @loader_params Product searchParams = Ret params /\
    QueryParameters.count params = parseInt s.
Proof.
  intros Hget Hws.
  eexists. split; [apply loader_params_eq |].
  cbn [QueryParameters.count]. rewrite Hget.
  apply parseInt_trim, Hws.
Qed.

Lemma count_leading_space_witness :
  exists params,
    @loader_params unit (URLSearchParams.new "?count=+%0924") = Ret params /\
    QueryParameters.count params = Int 24.
Proof.
  apply (count_leading_space unit (URLSearchParams.new "?count=+%0924")
           [0x20; 0x09]%N (str "24")); reflexivity.
Defined.

(** When [count] is [0x] or [0X] followed by a hexadecimal numeral of
    value at most [2^53], the page size is the value of that numeral in
    radix 16. *)
Theorem count_hexadecimal (Product : Type)
  (searchParams : URLSearchParams.t) (x : code_unit) (hs tail : jsstring) :
  URLSearchParams.get searchParams (str "count")
  = Some (chr "0" :: x :: hs ++ tail) ->
  ((x =? chr "x") || (x =? chr "X"))%N = true ->
  hs <> [] ->
  forallb is_hex_digit hs = true ->
  match tail with [] => true | c :: _ => negb (is_hex_digit c) end = true ->
  (hexadecimal hs <= 2 ^ 53)%Z ->
  exists params,
    @loader_params Product searchParams = Ret params /\
    QueryParameters.count params = Int (hexadecimal hs).
Proof.
  intros Hget Hx Hne Hhs Htail Hv.
  eexists. split; [apply loader_params_eq |].
  cbn [QueryParameters.count]. rewrite Hget.
  rewrite parseInt_hexadecimal by assumption.
  pose proof (hexadecimal_nonneg _ Hhs).
  unfold signed_number.
  destruct (Z.eqb_spec (hexadecimal hs) 0) as [-> | Hnz]; [reflexivity |].
  rewrite of_Z_exact by lia. f_equal. lia.
Qed.

Lemma count_hexadecimal_witness :
  exists params,
    @loader_params unit (URLSearchParams.new "?count=0X1f,5") = Ret params /\
    QueryParameters.count params = Int 31.
Proof.
  apply (count_hexadecimal unit (URLSearchParams.new "?count=0X1f,5")
           (chr "X") (str "1f") (str ",5")).
  - reflexivity.
  - reflexivity.
  - discriminate.
  - reflexivity.
  - reflexivity.
  - vm_compute. discriminate.
Defined.

(* ================================================================== *)
(** ** Repeated and foreign keys *)
(* ================================================================== *)

(** The first pair with the name decides; pairs after it are not read. *)
Theorem get_first_wins (before after : URLSearchParams.t)
  (name : jsstring) :
  URLSearchParams.get (before ++ after) name
  = match URLSearchParams.get before name with
    | Some value => Some value
    | None => URLSearchParams.get after name
    end.
Proof.
  induction before as [|[n v] before IH]; [reflexivity |].
  simpl. destruct (JsString.eqb n name); [reflexivity | exact IH].
Qed.

Section Independence.

Variable Product : Type.
Variable isProduction : bool.

(** The loader reads the request through the first value of the four
    keys only: two requests that agree on them, in the same storefront,
    make the same call and end the same way, whatever other keys or
    later repetitions their query strings hold. *)
Theorem loader_reads_four_keys (args1 args2 : LoaderFunctionArgs)
  (client : string -> QueryOptions -> QueryResult Product) :
  let searchParams1 := URLSearchParams.new (url_search (request args1)) in
  let searchParams2 := URLSearchParams.new (url_search (request args2)) in
  context args1 = context args2 ->
  (forall key,
      In key [str "query"; str "sortKey"; str "reverse"; str "count"] ->
      URLSearchParams.get searchParams1 key
      = URLSearchParams.get searchParams2 key) ->
  run client (loader isProduction args1)
  = run client (loader isProduction args2).
Proof.
  cbv zeta. intros Hctx Hkeys.
  destruct (loader_run Product isProduction client args1) as (p1 & Hp1 & Hr1).
  destruct (loader_run Product isProduction client args2) as (p2 & Hp2 & Hr2).
  cbv zeta in Hr1, Hr2. rewrite Hr1, Hr2.
  rewrite loader_params_eq in Hp1, Hp2.
  rewrite !Hkeys in Hp1 by (simpl; tauto).
  rewrite Hp1 in Hp2. injection Hp2 as ->. rewrite Hctx. reflexivity.
Qed.

(** The parameters of a response are the ones read from the request. *)
Lemma run_returns_params (args : LoaderFunctionArgs)
  (client : string -> QueryOptions -> QueryResult Product)
  (response : Response Product) :
  snd (run client (loader isProduction args)) = inl response ->
  @loader_params Product (URLSearchParams.new (url_search (request args)))
  = Ret (LoaderData.searchParams (body response)).
Proof.
  destruct (loader_shape Product isProduction args)
    as (params & k & Hp & Hl & Hrej & Hnull & Hsome).
  rewrite Hl. cbn [run].
  by_answer (client API_ALL_PRODUCTS_QUERY
               {| variables :=
                    variables_of params (i18n (storefront (context args)));
                  cache := CacheLong |}).
  - rewrite Hsome. cbn [run snd]. intros E. injection E as <-. exact Hp.
  - rewrite Hnull. cbn [run snd]. discriminate.
  - rewrite Hrej. cbn [run snd]. discriminate.
Qed.

(** A run returns a response exactly when the call is fulfilled with a
    [products] connection; the response then has status 200 and lists
    the nodes of the connection, unchanged and in order. *)
Theorem loader_response (args : LoaderFunctionArgs)
  (client : string -> QueryOptions -> QueryResult Product)
  (response : Response Product) :
  snd (run client (loader isProduction args)) = inl response <->
  exists connection,
    answer client (loader isProduction args)
    = Some (Fulfilled {| Data.products := Some connection |}) /\
    status response = 200%Z /\
    LoaderData.products (body response) = nodes connection /\
    @loader_params Product (URLSearchParams.new (url_search (request args)))
    = Ret (LoaderData.searchParams (body response)).
Proof.
  destruct (loader_shape Product isProduction args)
    as (params & k & Hp & Hl & Hrej & Hnull & Hsome).
  rewrite Hl. cbn [answer run].
  by_answer (client API_ALL_PRODUCTS_QUERY
               {| variables :=
                    variables_of params (i18n (storefront (context args)));
                  cache := CacheLong |}).
  - rewrite Hsome. cbn [run snd]. split.
    + intros E. injection E as <-. exists connection.
      repeat split; assumption.
    + intros (c & E & Hst & Hprod & Hparams).
      injection E as <-. destruct response as [st [prods sp]].
      cbn in *. subst. rewrite Hp in Hparams. injection Hparams as <-.
      reflexivity.
  - rewrite Hnull. cbn [run snd].
    split; [discriminate | intros (c & E & _); discriminate E].
  - rewrite Hrej. cbn [run snd].
    split; [discriminate | intros (c & E & _); discriminate E].
Qed.

End Independence.

(* ================================================================== *)
(** ** [set] and [get] *)
(* ================================================================== *)

Lemma JsString_eqb_neq (a b : jsstring) : JsString.eqb a b = false <-> a <> b.
Proof.
  rewrite <- JsString_eqb_eq. destruct (JsString.eqb a b); split;
    congruence.
Qed.

Lemma JsString_eqb_refl (a : jsstring) : JsString.eqb a a = true.
Proof. apply JsString_eqb_eq. reflexivity. Qed.

Lemma get_remove_same (searchParams : URLSearchParams.t) (name : jsstring) :
  URLSearchParams.get (URLSearchParamsWrite.remove searchParams name) name
  = None.
Proof.
  induction searchParams as [|[n v] rest IH]; [reflexivity |].
  unfold URLSearchParamsWrite.remove in *. simpl.
  destruct (JsString.eqb n name) eqn:E; simpl; [exact IH |].
  rewrite E. exact IH.
Qed.

Lemma get_remove_other (searchParams : URLSearchParams.t)
  (name key : jsstring) :
  key <> name ->
  URLSearchParams.get (URLSearchParamsWrite.remove searchParams name) key
  = URLSearchParams.get searchParams key.
Proof.
  intros Hne. induction searchParams as [|[n v] rest IH]; [reflexivity |].
  unfold URLSearchParamsWrite.remove in *. simpl.
  destruct (JsString.eqb n name) eqn:E; simpl.
  - apply JsString_eqb_eq in E. subst n.
    apply not_eq_sym, JsString_eqb_neq in Hne. rewrite Hne. exact IH.
  - destruct (JsString.eqb n key); [reflexivity | exact IH].
Qed.

Lemma get_set (searchParams : URLSearchParams.t)
  (name value key : jsstring) :
  URLSearchParams.get (URLSearchParamsWrite.set searchParams name value) key
  = if JsString.eqb key name then Some value
    else URLSearchParams.get searchParams key.
Proof.
  induction searchParams as [|[n v] rest IH]; simpl.
  - destruct (JsString.eqb name key) eqn:E.
    + apply JsString_eqb_eq in E. subst key.
      rewrite JsString_eqb_refl. reflexivity.
    + apply JsString_eqb_neq, not_eq_sym, JsString_eqb_neq in E.
      rewrite E. reflexivity.
  - destruct (JsString.eqb n name) eqn:En; simpl.
    + apply JsString_eqb_eq in En. subst n.
      destruct (JsString.eqb name key) eqn:E.
      * apply JsString_eqb_eq in E. subst key.
        rewrite JsString_eqb_refl. reflexivity.
      * apply JsString_eqb_neq in E.
        rewrite get_remove_other by congruence.
        apply not_eq_sym, JsString_eqb_neq in E. rewrite E. reflexivity.
    + destruct (JsString.eqb n key) eqn:Ek.
      * apply JsString_eqb_eq in Ek. subst key. rewrite En. reflexivity.
      * exact IH.
Qed.

(** What [get] reads after [set]: under the name, the value that was
    set, whatever was there; under any other name, what was there
    before. *)
Theorem set_then_get (searchParams : URLSearchParams.t)
  (name value : jsstring) :
  URLSearchParams.get (URLSearchParamsWrite.set searchParams name value) name
  = Some value /\
  (forall key,
      key <> name ->
      URLSearchParams.get (URLSearchParamsWrite.set searchParams name value)
                          key
      = URLSearchParams.get searchParams key).
Proof.
  split.
  - rewrite get_set, JsString_eqb_refl. reflexivity.
  - intros key Hne. rewrite get_set.
    apply JsString_eqb_neq in Hne. rewrite Hne. reflexivity.
Qed.

Lemma remove_cons (n v : jsstring) (rest : URLSearchParams.t)
  (name : jsstring) :
  URLSearchParamsWrite.remove ((n, v) :: rest) name
  = if JsString.eqb n name then URLSearchParamsWrite.remove rest name
    else (n, v) :: URLSearchParamsWrite.remove rest name.
Proof.
  unfold URLSearchParamsWrite.remove. cbn [filter fst].
  destruct (JsString.eqb n name); reflexivity.
Qed.

Lemma filter_name_cons (n v : jsstring) (rest : URLSearchParams.t)
  (name : jsstring) :
  filter (fun pair : jsstring * jsstring => JsString.eqb (fst pair) name)
         ((n, v) :: rest)
  = if JsString.eqb n name
    then (n, v) :: filter (fun pair : jsstring * jsstring =>
                             JsString.eqb (fst pair) name) rest
    else filter (fun pair : jsstring * jsstring =>
                   JsString.eqb (fst pair) name) rest.
Proof. reflexivity. Qed.

(** After [set] there is one pair of that name, and the pairs of other
    names are the ones that were there, in their order. *)
Theorem set_keeps_one (searchParams : URLSearchParams.t)
  (name value : jsstring) :
  filter (fun pair => JsString.eqb (fst pair) name)
         (URLSearchParamsWrite.set searchParams name value)
  = [(name, value)] /\
  URLSearchParamsWrite.remove
    (URLSearchParamsWrite.set searchParams name value) name
  = URLSearchParamsWrite.remove searchParams name.
Proof.
  assert (Hrm : forall l,
             filter (fun pair : jsstring * jsstring =>
                       JsString.eqb (fst pair) name)
                    (URLSearchParamsWrite.remove l name) = []).
  { induction l as [|[n v] l IH]; [reflexivity |].
    rewrite remove_cons. destruct (JsString.eqb n name) eqn:E; [exact IH |].
    rewrite filter_name_cons, E. exact IH. }
  assert (Hrr : forall l,
             URLSearchParamsWrite.remove
               (URLSearchParamsWrite.remove l name) name
             = URLSearchParamsWrite.remove l name).
  { induction l as [|[n v] l IH]; [reflexivity |].
    rewrite remove_cons. destruct (JsString.eqb n name) eqn:E; [exact IH |].
    rewrite remove_cons, E, IH. reflexivity. }
  induction searchParams as [|[n v] rest [IH1 IH2]];
    cbn [URLSearchParamsWrite.set].
  - rewrite filter_name_cons, remove_cons, JsString_eqb_refl.
    split; reflexivity.
  - destruct (JsString.eqb n name) eqn:E.
    + rewrite filter_name_cons, !remove_cons, E, Hrm, Hrr.
      apply JsString_eqb_eq in E. subst n. split; reflexivity.
    + rewrite filter_name_cons, !remove_cons, E, IH1, IH2.
      split; reflexivity.
Qed.

(* ================================================================== *)
(** ** Bits as arithmetic *)
(* ================================================================== *)

(** Division and remainder by constants, for [lia]. *)
Ltac Zify.zify_post_hook ::= Z.to_euclidean_division_equations.

Lemma land_low (x : N) (k : N) : N.land x (N.ones k) = (x mod 2 ^ k)%N.
Proof. apply N.land_ones. Qed.

Lemma lor_shifted (a y k : N) :
  (y < 2 ^ k)%N -> N.lor (a * 2 ^ k) y = (a * 2 ^ k + y)%N.
Proof.
  intros Hy.
  assert (Hland : N.land (a * 2 ^ k) y = 0%N).
  { apply N.bits_inj. intros i. rewrite N.land_spec, N.bits_0.
    destruct (N.ltb_spec i k) as [Hi | Hi].
    - rewrite N.mul_pow2_bits_low by assumption. reflexivity.
    - replace y with (y mod 2 ^ k)%N by (apply N.mod_small; assumption).
      rewrite N.mod_pow2_bits_high by assumption. apply andb_false_r. }
  rewrite <- N.lxor_lor by assumption.
  symmetry. apply N.add_nocarry_lxor. assumption.
Qed.

Lemma land_3F (x : N) : N.land x 0x3F = (x mod 64)%N.
Proof. apply (land_low x 6). Qed.

Lemma land_1F (x : N) : N.land x 0x1F = (x mod 32)%N.
Proof. apply (land_low x 5). Qed.

Lemma land_F (x : N) : N.land x 0xF = (x mod 16)%N.
Proof. apply (land_low x 4). Qed.

Lemma land_7 (x : N) : N.land x 0x7 = (x mod 8)%N.
Proof. apply (land_low x 3). Qed.

Lemma shiftl_6 (x : N) : N.shiftl x 6 = (x * 64)%N.
Proof. rewrite N.shiftl_mul_pow2. reflexivity. Qed.

Lemma lor_64 (a y : N) : (y < 64)%N -> N.lor (a * 64) y = (a * 64 + y)%N.
Proof. apply (lor_shifted a y 6). Qed.

Lemma lor_80 (y : N) : (y < 64)%N -> N.lor 0x80 y = (0x80 + y)%N.
Proof. intros H. apply (lor_shifted 2 y 6). assumption. Qed.

Lemma continuation_eq (cp i : N) :
  Utf8Encode.continuation cp i = (0x80 + (cp / 2 ^ (6 * i)) mod 64)%N.
Proof.
  unfold Utf8Encode.continuation.
  rewrite land_3F, N.shiftr_div_pow2.
  apply lor_80. apply N.mod_lt. discriminate.
Qed.

(** The step of the decoder on a continuation byte. *)
Lemma decode_step (st : Utf8.state) (b : byte) (rest : list byte) :
  Utf8.bytes_needed st <> 0%N ->
  (Utf8.lower_boundary st <= b <= Utf8.upper_boundary st)%N ->
  Utf8.decode_from st (b :: rest)
  = let cp := (Utf8.code_point st * 64 + b mod 64)%N in
    if (Utf8.bytes_seen st + 1 =? Utf8.bytes_needed st)%N
    then cp :: Utf8.decode_from Utf8.initial rest
    else Utf8.decode_from
           {| Utf8.code_point := cp;
              Utf8.bytes_seen := Utf8.bytes_seen st + 1;
              Utf8.bytes_needed := Utf8.bytes_needed st;
              Utf8.lower_boundary := 0x80; Utf8.upper_boundary := 0xBF |}
           rest.
Proof.
  intros Hn [Hlo Hhi]. cbn [Utf8.decode_from].
  apply N.eqb_neq in Hn. rewrite Hn.
  destruct (N.ltb_spec b (Utf8.lower_boundary st)); [lia |].
  destruct (N.ltb_spec (Utf8.upper_boundary st) b); [lia |].
  cbn [orb]. cbv zeta.
  rewrite shiftl_6, land_3F, lor_64 by (apply N.mod_lt; discriminate).
  reflexivity.
Qed.

Lemma decode_lead (b : byte) (rest : list byte) :
  Utf8.decode_from Utf8.initial (b :: rest)
  = match Utf8.lead b with
    | Utf8.Emit cp => cp :: Utf8.decode_from Utf8.initial rest
    | Utf8.Continue st => Utf8.decode_from st rest
    | Utf8.Malformed => Utf8.replacement :: Utf8.decode_from Utf8.initial rest
    end.
Proof. reflexivity. Qed.

(* ================================================================== *)
(** ** UTF-8: decoding what was encoded *)
(* ================================================================== *)

Lemma lead_1 (b : byte) : (b <= 0x7F)%N -> Utf8.lead b = Utf8.Emit b.
Proof.
  intros H. unfold Utf8.lead.
  destruct (N.leb_spec b 0x7F); [reflexivity | lia].
Qed.

Lemma lead_2 (b : byte) :
  (0xC2 <= b <= 0xDF)%N ->
  Utf8.lead b
  = Utf8.Continue
      {| Utf8.code_point := (b mod 32)%N; Utf8.bytes_seen := 0;
         Utf8.bytes_needed := 1;
         Utf8.lower_boundary := 0x80; Utf8.upper_boundary := 0xBF |}.
Proof.
  intros H. unfold Utf8.lead. rewrite land_1F.
  destruct (N.leb_spec b 0x7F); [lia |].
  destruct (N.leb_spec 0xC2 b); [| lia].
  destruct (N.leb_spec b 0xDF); [| lia]. reflexivity.
Qed.

Lemma lead_3 (b : byte) :
  (0xE0 <= b <= 0xEF)%N ->
  Utf8.lead b
  = Utf8.Continue
      {| Utf8.code_point := (b mod 16)%N; Utf8.bytes_seen := 0;
         Utf8.bytes_needed := 2;
         Utf8.lower_boundary := if (b =? 0xE0)%N then 0xA0 else 0x80;
         Utf8.upper_boundary := if (b =? 0xED)%N then 0x9F else 0xBF |}.
Proof.
  intros H. unfold Utf8.lead. rewrite land_F.
  destruct (N.leb_spec b 0x7F); [lia |].
  destruct (N.leb_spec 0xC2 b); [| lia].
  destruct (N.leb_spec b 0xDF); [lia |]. cbn [andb].
  destruct (N.leb_spec 0xE0 b); [| lia].
  destruct (N.leb_spec b 0xEF); [| lia]. reflexivity.
Qed.

Lemma lead_4 (b : byte) :
  (0xF0 <= b <= 0xF4)%N ->
  Utf8.lead b
  = Utf8.Continue
      {| Utf8.code_point := (b mod 8)%N; Utf8.bytes_seen := 0;
         Utf8.bytes_needed := 3;
         Utf8.lower_boundary := if (b =? 0xF0)%N then 0x90 else 0x80;
         Utf8.upper_boundary := if (b =? 0xF4)%N then 0x8F else 0xBF |}.
Proof.
  intros H. unfold Utf8.lead. rewrite land_7.
  destruct (N.leb_spec b 0x7F); [lia |].
  destruct (N.leb_spec 0xC2 b); [| lia].
  destruct (N.leb_spec b 0xDF); [lia |]. cbn [andb].
  destruct (N.leb_spec 0xE0 b); [| lia].
  destruct (N.leb_spec b 0xEF); [lia |]. cbn [andb].
  destruct (N.leb_spec 0xF0 b); [| lia].
  destruct (N.leb_spec b 0xF4); [| lia]. reflexivity.
Qed.

Lemma scalar_value_range (cp : N) :
  is_scalar_value cp = true <->
  (cp < 0xD800 \/ 0xDFFF < cp < 0x110000)%N.
Proof.
  unfold is_scalar_value.
  rewrite orb_true_iff, andb_true_iff, !N.ltb_lt. tauto.
Qed.

Lemma encode_code_point_eq (cp : N) :
  Utf8Encode.encode_code_point cp
  = (if cp <=? 0x7F then [cp]
     else if cp <=? 0x7FF then [cp / 64 + 0xC0; 0x80 + cp mod 64]
     else if cp <=? 0xFFFF then
       [cp / 4096 + 0xE0; 0x80 + (cp / 64) mod 64; 0x80 + cp mod 64]
     else
       [cp / 262144 + 0xF0; 0x80 + (cp / 4096) mod 64;
        0x80 + (cp / 64) mod 64; 0x80 + cp mod 64])%N.
Proof.
  unfold Utf8Encode.encode_code_point.
  rewrite !continuation_eq, !N.shiftr_div_pow2.
  change (2 ^ (6 * 0))%N with 1%N. rewrite N.div_1_r.
  reflexivity.
Qed.

(** The decoder reads back the code point the encoder wrote. *)
Lemma decode_encode_code_point (cp : N) (rest : list byte) :
  is_scalar_value cp = true ->
  Utf8.decode_from Utf8.initial (Utf8Encode.encode_code_point cp ++ rest)
  = cp :: Utf8.decode_from Utf8.initial rest.
Proof.
  rewrite scalar_value_range. intros Hcp.
  rewrite encode_code_point_eq.
  destruct (N.leb_spec cp 0x7F) as [H1 | H1].
  { cbn [app]. rewrite decode_lead, lead_1 by assumption. reflexivity. }
  destruct (N.leb_spec cp 0x7FF) as [H2 | H2].
  { cbn [app]. rewrite decode_lead, lead_2 by lia.
    rewrite decode_step
      by (cbn [Utf8.bytes_needed Utf8.lower_boundary Utf8.upper_boundary]; lia).
    cbn [Utf8.bytes_seen Utf8.bytes_needed Utf8.code_point].
    change (0 + 1 =? 1)%N with true. cbv zeta iota.
    f_equal. lia. }
  destruct (N.leb_spec cp 0xFFFF) as [H3 | H3].
  { cbn [app]. rewrite decode_lead, lead_3 by lia.
    rewrite decode_step.
    2: cbn [Utf8.bytes_needed]; discriminate.
    2: { cbn [Utf8.lower_boundary Utf8.upper_boundary].
         destruct (N.eqb_spec (cp / 4096 + 0xE0) 0xE0);
           destruct (N.eqb_spec (cp / 4096 + 0xE0) 0xED); lia. }
    cbn [Utf8.bytes_seen Utf8.bytes_needed Utf8.code_point].
    change (0 + 1 =? 2)%N with false. cbv zeta iota.
    rewrite decode_step by (cbn [Utf8.bytes_needed Utf8.lower_boundary Utf8.upper_boundary]; lia).
    cbn [Utf8.bytes_seen Utf8.bytes_needed Utf8.code_point].
    change (0 + 1 + 1 =? 2)%N with true. cbv zeta iota.
    f_equal. lia. }
  cbn [app]. rewrite decode_lead, lead_4 by lia.
  rewrite decode_step.
  2: cbn [Utf8.bytes_needed]; discriminate.
  2: { cbn [Utf8.lower_boundary Utf8.upper_boundary].
       destruct (N.eqb_spec (cp / 262144 + 0xF0) 0xF0);
         destruct (N.eqb_spec (cp / 262144 + 0xF0) 0xF4); lia. }
  cbn [Utf8.bytes_seen Utf8.bytes_needed Utf8.code_point].
  change (0 + 1 =? 3)%N with false. cbv zeta iota.
  rewrite decode_step by (cbn [Utf8.bytes_needed Utf8.lower_boundary Utf8.upper_boundary]; lia).
  cbn [Utf8.bytes_seen Utf8.bytes_needed Utf8.code_point].
  change (0 + 1 + 1 =? 3)%N with false. cbv zeta iota.
  rewrite decode_step by (cbn [Utf8.bytes_needed Utf8.lower_boundary Utf8.upper_boundary]; lia).
  cbn [Utf8.bytes_seen Utf8.bytes_needed Utf8.code_point].
  change (0 + 1 + 1 + 1 =? 3)%N with true. cbv zeta iota.
  f_equal. lia.
Qed.

Lemma decode_encode_code_points (cps : list N) :
  forallb is_scalar_value cps = true ->
  Utf8.decode_from Utf8.initial (flat_map Utf8Encode.encode_code_point cps)
  = cps.
Proof.
  induction cps as [|cp cps IH]; [reflexivity |].
  cbn [forallb flat_map]. rewrite andb_true_iff. intros [Hcp Hcps].
  rewrite decode_encode_code_point by assumption.
  rewrite IH by assumption. reflexivity.
Qed.

Lemma surrogate_ranges (c : code_unit) :
  (Utf8Encode.is_lead_surrogate c = true <-> (0xD800 <= c <= 0xDBFF)%N) /\
  (Utf8Encode.is_trail_surrogate c = true <-> (0xDC00 <= c <= 0xDFFF)%N).
Proof.
  unfold Utf8Encode.is_lead_surrogate, Utf8Encode.is_trail_surrogate.
  rewrite !andb_true_iff, !N.leb_le. tauto.
Qed.

Lemma utf16_pair (c d : code_unit) :
  Utf8Encode.is_lead_surrogate c = true ->
  Utf8Encode.is_trail_surrogate d = true ->
  let cp := (0x10000 + (c - 0xD800) * 0x400 + (d - 0xDC00))%N in
  is_scalar_value cp = true /\ Utf8.utf16 cp = [c; d].
Proof.
  intros Hc Hd. apply surrogate_ranges in Hc. apply surrogate_ranges in Hd.
  cbv zeta. split.
  - apply scalar_value_range. lia.
  - unfold Utf8.utf16.
    destruct (N.ltb_spec (0x10000 + (c - 0xD800) * 0x400 + (d - 0xDC00))
                         0x10000); [lia |].
    rewrite N.shiftr_div_pow2.
    change 0x3FF%N with (N.ones 10). rewrite N.land_ones.
    change (2 ^ 10)%N with 1024%N.
    f_equal; [lia | f_equal; lia].
Qed.

Lemma utf16_single (c : code_unit) :
  Utf8Encode.is_lead_surrogate c = false ->
  Utf8Encode.is_trail_surrogate c = false ->
  (c <? 0x10000)%N = true ->
  is_scalar_value c = true /\ Utf8.utf16 c = [c].
Proof.
  intros Hl Ht Hc.
  assert (Hl' : ~ (0xD800 <= c <= 0xDBFF)%N)
    by (rewrite <- (proj1 (surrogate_ranges c)); congruence).
  assert (Ht' : ~ (0xDC00 <= c <= 0xDFFF)%N)
    by (rewrite <- (proj2 (surrogate_ranges c)); congruence).
  apply N.ltb_lt in Hc. split.
  - apply scalar_value_range. lia.
  - unfold Utf8.utf16. rewrite (proj2 (N.ltb_lt _ _) Hc). reflexivity.
Qed.

(** The scalar values of a well-formed string are scalar values, and
    their UTF-16 form is the string. *)
Lemma scalar_values_well_formed (s : jsstring) :
  well_formed s = true ->
  forallb is_scalar_value (Utf8Encode.scalar_values s) = true /\
  flat_map Utf8.utf16 (Utf8Encode.scalar_values s) = s.
Proof.
  remember (List.length s) as n eqn:Hn.
  revert s Hn. induction n as [n IH] using lt_wf_ind. intros s Hn Hwf.
  destruct s as [|c rest]; [split; reflexivity |].
  cbn [well_formed] in Hwf. cbn [Utf8Encode.scalar_values].
  destruct (Utf8Encode.is_lead_surrogate c) eqn:Hl.
  - assert (Ht : Utf8Encode.is_trail_surrogate c = false).
    { apply surrogate_ranges in Hl. apply not_true_iff_false.
      rewrite (proj2 (surrogate_ranges c)). lia. }
    rewrite Ht. destruct rest as [|d rest']; [discriminate |].
    apply andb_true_iff in Hwf. destruct Hwf as [Hd Hwf]. rewrite Hd.
    destruct (utf16_pair c d Hl Hd) as [Hs Hu].
    destruct (IH (List.length rest')) with (s := rest') as [IH1 IH2];
      [subst n; simpl; lia | reflexivity | assumption |].
    cbn [forallb flat_map]. rewrite Hs, Hu, IH1, IH2. split; reflexivity.
  - rewrite !andb_true_iff, negb_true_iff in Hwf.
    destruct Hwf as [[Ht Hc] Hwf]. rewrite Ht.
    destruct (utf16_single c Hl Ht Hc) as [Hs Hu].
    destruct (IH (List.length rest)) with (s := rest) as [IH1 IH2];
      [subst n; simpl; lia | reflexivity | assumption |].
    cbn [forallb flat_map]. rewrite Hs, Hu, IH1, IH2. split; reflexivity.
Qed.

(** UTF-8 round trip: decoding the encoding of a well-formed string
    gives the string. *)
Theorem utf8_round_trip (s : jsstring) :
  well_formed s = true -> Utf8.decode (Utf8Encode.encode s) = s.
Proof.
  intros Hwf. destruct (scalar_values_well_formed s Hwf) as [Hs Hu].
  unfold Utf8.decode, Utf8Encode.encode.
  rewrite decode_encode_code_points by assumption. exact Hu.
Qed.

Lemma utf8_round_trip_witness :
  Utf8.decode (Utf8Encode.encode [0x63; 0xE9; 0x20AC; 0xD83D; 0xDE00]%N)
  = [0x63; 0xE9; 0x20AC; 0xD83D; 0xDE00]%N.
Proof.
  apply (utf8_round_trip [0x63; 0xE9; 0x20AC; 0xD83D; 0xDE00]%N).
  reflexivity.
Defined.

Lemma encode_code_point_bytes (cp : N) :
  is_scalar_value cp = true ->
  forallb is_byte (Utf8Encode.encode_code_point cp) = true.
Proof.
  rewrite scalar_value_range. intros Hcp. rewrite encode_code_point_eq.
  destruct (N.leb_spec cp 0x7F); [| destruct (N.leb_spec cp 0x7FF);
    [| destruct (N.leb_spec cp 0xFFFF)]];
    cbn [forallb]; unfold is_byte; rewrite ?andb_true_iff, ?N.ltb_lt;
    repeat split; lia.
Qed.

Lemma encode_bytes (s : jsstring) :
  well_formed s = true ->
  forallb is_byte (Utf8Encode.encode s) = true.
Proof.
  intros Hwf. destruct (scalar_values_well_formed s Hwf) as [Hs _].
  unfold Utf8Encode.encode.
  induction (Utf8Encode.scalar_values s) as [|cp cps IH]; [reflexivity |].
  cbn [forallb] in Hs. apply andb_true_iff in Hs.
  destruct Hs as [Hcp Hcps]. cbn [flat_map].
  rewrite forallb_app, encode_code_point_bytes by assumption.
  apply IH, Hcps.
Qed.

(* ================================================================== *)
(** ** Percent-encoding: decoding what was encoded *)
(* ================================================================== *)

Lemma unreserved_range (b : byte) :
  URLSearchParamsWrite.unreserved b = true <->
  ((0x30 <= b <= 0x39) \/ (0x41 <= b <= 0x5A) \/ (0x61 <= b <= 0x7A)
   \/ b = 0x2A \/ b = 0x2D \/ b = 0x2E \/ b = 0x5F)%N.
Proof.
  unfold URLSearchParamsWrite.unreserved.
  rewrite !orb_true_iff, !andb_true_iff, !N.leb_le, !N.eqb_eq. tauto.
Qed.

Lemma hex_char_range (d : N) :
  (d < 16)%N ->
  let h := URLSearchParamsWrite.hex_char d in
  ((0x30 <= h <= 0x39) \/ (0x41 <= h <= 0x46))%N /\
  URLSearchParams.hex_digit h = Some d.
Proof.
  intros Hd. cbv zeta. unfold URLSearchParamsWrite.hex_char.
  destruct (N.ltb_spec d 10).
  - split; [lia |]. unfold URLSearchParams.hex_digit.
    destruct (N.leb_spec 0x30 (0x30 + d)); [| lia].
    destruct (N.leb_spec (0x30 + d) 0x39); [| lia].
    cbn [andb]. f_equal. lia.
  - split; [lia |]. unfold URLSearchParams.hex_digit.
    destruct (N.leb_spec 0x30 (0x41 + (d - 10))); [| lia].
    destruct (N.leb_spec (0x41 + (d - 10)) 0x39); [lia |].
    destruct (N.leb_spec 0x41 (0x41 + (d - 10))); [| lia].
    destruct (N.leb_spec (0x41 + (d - 10)) 0x46); [| lia].
    cbn [andb]. f_equal. lia.
Qed.

(** The three shapes of an encoded byte. *)
Lemma encode_byte_cases (b : byte) :
  (b < 256)%N ->
  (b = 0x20%N /\ URLSearchParamsWrite.encode_byte b = [0x2B%N]) \/
  (URLSearchParamsWrite.unreserved b = true /\
   URLSearchParamsWrite.encode_byte b = [b]) \/
  (exists h l,
      URLSearchParamsWrite.encode_byte b = [0x25%N; h; l] /\
      ((0x30 <= h <= 0x39) \/ (0x41 <= h <= 0x46))%N /\
      ((0x30 <= l <= 0x39) \/ (0x41 <= l <= 0x46))%N /\
      URLSearchParams.hex_digit h = Some (b / 16)%N /\
      URLSearchParams.hex_digit l = Some (b mod 16)%N).
Proof.
  intros Hb. unfold URLSearchParamsWrite.encode_byte.
  destruct (N.eqb_spec b 0x20) as [-> | Hsp]; [left; split; reflexivity |].
  destruct (URLSearchParamsWrite.unreserved b) eqn:Hu;
    [right; left; split; reflexivity |].
  right; right.
  destruct (hex_char_range (b / 16)) as [Hh1 Hh2]; [lia |].
  destruct (hex_char_range (b mod 16)) as [Hl1 Hl2]; [lia |].
  eexists; eexists. split; [reflexivity |]. repeat split; assumption.
Qed.

Lemma plus_to_space_app (a b : list byte) :
  URLSearchParams.plus_to_space (a ++ b)
  = URLSearchParams.plus_to_space a ++ URLSearchParams.plus_to_space b.
Proof. apply map_app. Qed.

Lemma plus_to_space_other (b : byte) (rest : list byte) :
  b <> 0x2B%N ->
  URLSearchParams.plus_to_space (b :: rest)
  = b :: URLSearchParams.plus_to_space rest.
Proof.
  intros H. unfold URLSearchParams.plus_to_space. cbn [map].
  apply N.eqb_neq in H. rewrite H. reflexivity.
Qed.

Lemma percent_decode_byte (b : byte) (rest : list byte) :
  (b < 256)%N ->
  URLSearchParams.percent_decode
    (URLSearchParams.plus_to_space
       (URLSearchParamsWrite.encode_byte b ++ rest))
  = b :: URLSearchParams.percent_decode (URLSearchParams.plus_to_space rest).
Proof.
  intros Hb.
  destruct (encode_byte_cases b Hb)
    as [[-> ->] | [[Hu ->] | (h & l & -> & Hh & Hl & Hdh & Hdl)]].
  - reflexivity.
  - apply unreserved_range in Hu. cbn [app].
    rewrite plus_to_space_other by lia.
    cbn [URLSearchParams.percent_decode].
    destruct (N.eqb_spec b 0x25); [lia | reflexivity].
  - cbn [app]. rewrite !plus_to_space_other by lia.
    cbn [URLSearchParams.percent_decode].
    change (0x25 =? 0x25)%N with true. cbv iota.
    rewrite Hdh, Hdl. f_equal. lia.
Qed.

Lemma percent_decode_bytes (bytes rest : list byte) :
  forallb is_byte bytes = true ->
  URLSearchParams.percent_decode
    (URLSearchParams.plus_to_space
       (flat_map URLSearchParamsWrite.encode_byte bytes ++ rest))
  = bytes
    ++ URLSearchParams.percent_decode (URLSearchParams.plus_to_space rest).
Proof.
  induction bytes as [|b bytes IH]; [reflexivity |].
  cbn [forallb flat_map]. unfold is_byte at 1. rewrite andb_true_iff, N.ltb_lt.
  intros [Hb Hbytes]. rewrite <- app_assoc.
  rewrite percent_decode_byte by assumption.
  rewrite IH by assumption. reflexivity.
Qed.

(** A component is read back as it was written. *)
Lemma decode_encode_component (s : jsstring) :
  well_formed s = true ->
  URLSearchParams.decode_component (URLSearchParamsWrite.encode_component s)
  = s.
Proof.
  intros Hwf.
  unfold URLSearchParams.decode_component,
    URLSearchParamsWrite.encode_component.
  rewrite <- (app_nil_r (flat_map _ _)).
  rewrite percent_decode_bytes by (apply encode_bytes; assumption).
  cbn [URLSearchParams.plus_to_space map URLSearchParams.percent_decode].
  rewrite app_nil_r.
  destruct (scalar_values_well_formed s Hwf) as [Hs Hu].
  unfold Utf8.decode, Utf8Encode.encode.
  rewrite decode_encode_code_points by assumption. exact Hu.
Qed.

Lemma plain_spec (b : byte) :
  plain b = true <-> (b < 256 /\ b <> 0x26 /\ b <> 0x3D)%N.
Proof.
  unfold plain, is_byte, differs.
  rewrite !andb_true_iff, !negb_true_iff, N.ltb_lt, !N.eqb_neq. tauto.
Qed.

Lemma encode_byte_plain (b : byte) :
  (b < 256)%N -> forallb plain (URLSearchParamsWrite.encode_byte b) = true.
Proof.
  intros Hb.
  destruct (encode_byte_cases b Hb)
    as [[-> ->] | [[Hu ->] | (h & l & -> & Hh & Hl & _)]].
  - reflexivity.
  - apply unreserved_range in Hu. cbn [forallb].
    rewrite andb_true_r. apply plain_spec. lia.
  - cbn [forallb]. rewrite andb_true_r, !andb_true_iff, !plain_spec. lia.
Qed.

Lemma encode_component_plain (s : jsstring) :
  well_formed s = true ->
  forallb plain (URLSearchParamsWrite.encode_component s) = true.
Proof.
  intros Hwf. pose proof (encode_bytes s Hwf) as Hb.
  unfold URLSearchParamsWrite.encode_component.
  induction (Utf8Encode.encode s) as [|b bytes IH]; [reflexivity |].
  cbn [forallb] in Hb. apply andb_true_iff in Hb. destruct Hb as [Hb Hbs].
  unfold is_byte in Hb. apply N.ltb_lt in Hb. cbn [flat_map].
  rewrite forallb_app, encode_byte_plain by assumption.
  apply IH, Hbs.
Qed.

(* ================================================================== *)
(** ** Parsing what was serialized *)
(* ================================================================== *)

Lemma split_on_app (sep : byte) (a tail : list byte) :
  forallb (differs sep) a = true ->
  URLSearchParams.split_on sep (a ++ tail)
  = match URLSearchParams.split_on sep tail with
    | s :: ss => (a ++ s) :: ss
    | [] => [a]
    end.
Proof.
  induction a as [|b a IH]; intros Ha.
  - cbn [app]. destruct (URLSearchParams.split_on sep tail) eqn:E;
      [| reflexivity].
    destruct tail as [|t tail]; [discriminate E |].
    cbn [URLSearchParams.split_on] in E.
    destruct (t =? sep)%N; [discriminate E |].
    destruct (URLSearchParams.split_on sep tail); discriminate E.
  - cbn [forallb] in Ha. apply andb_true_iff in Ha. destruct Ha as [Hb Ha].
    unfold differs in Hb. apply negb_true_iff in Hb.
    cbn [app URLSearchParams.split_on]. rewrite Hb, IH by assumption.
    destruct (URLSearchParams.split_on sep tail); reflexivity.
Qed.

Lemma break_at_app (sep : byte) (a tail : list byte) :
  forallb (differs sep) a = true ->
  URLSearchParams.break_at sep (a ++ sep :: tail) = (a, Some tail).
Proof.
  induction a as [|b a IH]; intros Ha.
  - cbn [app URLSearchParams.break_at]. rewrite N.eqb_refl. reflexivity.
  - cbn [forallb] in Ha. apply andb_true_iff in Ha. destruct Ha as [Hb Ha].
    unfold differs in Hb. apply negb_true_iff in Hb.
    cbn [app URLSearchParams.break_at]. rewrite Hb, IH by assumption.
    reflexivity.
Qed.

Lemma plain_no_sep (bytes : list byte) :
  forallb plain bytes = true ->
  forallb (differs 0x26%N) bytes = true /\
  forallb (differs 0x3D%N) bytes = true /\
  forallb is_byte bytes = true.
Proof.
  induction bytes as [|b bytes IH]; [repeat split |].
  cbn [forallb]. rewrite andb_true_iff. intros [Hb Hbs].
  destruct (IH Hbs) as (H1 & H2 & H3). rewrite H1, H2, H3.
  unfold plain in Hb. rewrite !andb_true_iff in Hb.
  destruct Hb as [[-> ->] ->]. repeat split.
Qed.

Lemma serialize_cons (name value : jsstring) (rest : URLSearchParams.t) :
  URLSearchParamsWrite.serialize ((name, value) :: rest)
  = pair_bytes name value
    ++ match rest with
       | [] => []
       | _ => 0x26%N :: URLSearchParamsWrite.serialize rest
       end.
Proof.
  unfold pair_bytes. cbn [URLSearchParamsWrite.serialize].
  rewrite <- app_assoc. reflexivity.
Qed.

Lemma pair_bytes_no_amp (name value : jsstring) :
  well_formed name = true -> well_formed value = true ->
  forallb (differs 0x26%N) (pair_bytes name value) = true /\
  forallb is_byte (pair_bytes name value) = true.
Proof.
  intros Hn Hv. unfold pair_bytes.
  destruct (plain_no_sep _ (encode_component_plain name Hn)) as (N1 & _ & N3).
  destruct (plain_no_sep _ (encode_component_plain value Hv)) as (V1 & _ & V3).
  rewrite !forallb_app. cbn [forallb]. rewrite N1, V1, N3, V3.
  split; reflexivity.
Qed.

Lemma parse_pair (name value : jsstring) :
  well_formed name = true -> well_formed value = true ->
  parse_sequence (pair_bytes name value) = [(name, value)].
Proof.
  intros Hn Hv. unfold parse_sequence.
  destruct (plain_no_sep _ (encode_component_plain name Hn)) as (_ & N2 & _).
  unfold pair_bytes at 2. rewrite break_at_app by assumption.
  cbn [nullish]. rewrite !decode_encode_component by assumption.
  unfold pair_bytes.
  destruct (URLSearchParamsWrite.encode_component name); reflexivity.
Qed.

Lemma parse_eq (input : list byte) :
  URLSearchParams.parse input
  = flat_map parse_sequence (URLSearchParams.split_on 0x26%N input).
Proof. reflexivity. Qed.

(** The parser reads back the list the serializer wrote, when the names
    and values are well-formed strings. *)
Lemma parse_serialize (searchParams : URLSearchParams.t) :
  well_formed_params searchParams = true ->
  URLSearchParams.parse (URLSearchParamsWrite.serialize searchParams)
  = searchParams.
Proof.
  induction searchParams as [|[name value] rest IH]; [reflexivity |].
  unfold well_formed_params in *. cbn [forallb fst snd].
  rewrite !andb_true_iff. intros [[Hn Hv] Hrest].
  rewrite serialize_cons. rewrite parse_eq in *.
  destruct (pair_bytes_no_amp name value Hn Hv) as [Hamp _].
  rewrite split_on_app by assumption.
  destruct rest as [|pair rest].
  - cbn [URLSearchParams.split_on flat_map]. rewrite !app_nil_r.
    apply parse_pair; assumption.
  - cbn [URLSearchParams.split_on]. rewrite N.eqb_refl, app_nil_r.
    cbn [flat_map]. rewrite IH by assumption.
    rewrite parse_pair by assumption. reflexivity.
Qed.

Lemma serialize_bytes (searchParams : URLSearchParams.t) :
  well_formed_params searchParams = true ->
  forallb is_byte (URLSearchParamsWrite.serialize searchParams)
  = true.
Proof.
  induction searchParams as [|[name value] rest IH]; [reflexivity |].
  unfold well_formed_params in *. cbn [forallb fst snd].
  rewrite !andb_true_iff. intros [[Hn Hv] Hrest].
  rewrite serialize_cons, forallb_app.
  destruct (pair_bytes_no_amp name value Hn Hv) as [_ ->].
  destruct rest as [|pair rest]; [reflexivity |].
  cbn [forallb]. change (is_byte 0x26%N) with true.
  apply IH, Hrest.
Qed.

Lemma bytes_of_string_of_bytes (bytes : list byte) :
  forallb is_byte bytes = true ->
  map N_of_ascii
      (list_ascii_of_string (URLSearchParamsWrite.string_of_bytes bytes))
  = bytes.
Proof.
  intros H. unfold URLSearchParamsWrite.string_of_bytes.
  rewrite list_ascii_of_string_of_list_ascii, map_map.
  induction bytes as [|b bytes IH]; [reflexivity |].
  cbn [forallb] in H. apply andb_true_iff in H. destruct H as [Hb Hbs].
  unfold is_byte in Hb. apply N.ltb_lt in Hb. cbn [map].
  rewrite N_ascii_embedding by assumption. f_equal. apply IH, Hbs.
Qed.

(** The parameters of the [search] written for a list are what the
    parser makes of the serialized list. *)
Lemma new_search_parse (searchParams : URLSearchParams.t) :
  forallb is_byte (URLSearchParamsWrite.serialize searchParams) = true ->
  URLSearchParams.new (URLSearchParamsWrite.search searchParams)
  = URLSearchParams.parse (URLSearchParamsWrite.serialize searchParams).
Proof.
  intros Hbytes. unfold URLSearchParamsWrite.search.
  destruct (URLSearchParamsWrite.serialize searchParams) as [|b bytes];
    [reflexivity |].
  unfold URLSearchParams.new.
  change (Ascii.eqb "?" "?") with true. cbv iota.
  rewrite bytes_of_string_of_bytes by assumption. reflexivity.
Qed.

(** The round trip through the address: the parameters read from the
    [search] that was written for a list of well-formed names and values
    are that list, with its order and its repeated names. *)
Theorem address_round_trip (searchParams : URLSearchParams.t) :
  well_formed_params searchParams = true ->
  URLSearchParams.new (URLSearchParamsWrite.search searchParams)
  = searchParams.
Proof.
  intros Hwf.
  rewrite new_search_parse by (apply serialize_bytes; assumption).
  apply parse_serialize, Hwf.
Qed.

Lemma address_round_trip_witness :
  URLSearchParams.new
    (URLSearchParamsWrite.search
       [(str "query", [0x73; 0x20; 0x26; 0xE9; 0xD83D; 0xDE00]%N);
        (str "count", str "8"); (str "count", str "9")])
  = [(str "query", [0x73; 0x20; 0x26; 0xE9; 0xD83D; 0xDE00]%N);
     (str "count", str "8"); (str "count", str "9")].
Proof.
  apply (address_round_trip
           [(str "query", [0x73; 0x20; 0x26; 0xE9; 0xD83D; 0xDE00]%N);
            (str "count", str "8"); (str "count", str "9")]).
  reflexivity.
Defined.

(* ================================================================== *)
(** ** What the parser returns is well formed *)
(* ================================================================== *)

Ltac weigh :=
  repeat match goal with
         | |- context [(64 ^ ?e)%N] =>
             let v := eval vm_compute in (64 ^ e)%N in
             change (64 ^ e)%N with v
         | H : context [(64 ^ ?e)%N] |- _ =>
             let v := eval vm_compute in (64 ^ e)%N in
             change (64 ^ e)%N with v in H
         end.

Lemma pending_ok_initial : pending_ok Utf8.initial.
Proof. left. reflexivity. Qed.

Lemma lead_pending_ok (b : byte) (st : Utf8.state) :
  Utf8.lead b = Utf8.Continue st -> pending_ok st.
Proof.
  unfold Utf8.lead. rewrite land_1F, land_F, land_7.
  destruct (N.leb_spec b 0x7F); [discriminate |].
  destruct (N.leb_spec 0xC2 b), (N.leb_spec b 0xDF); cbn [andb].
  1: { intros E. injection E as <-. right. cbn. weigh. lia. }
  all: destruct (N.leb_spec 0xE0 b), (N.leb_spec b 0xEF); cbn [andb].
  all: try (intros E; injection E as <-; right;
            cbn [Utf8.bytes_seen Utf8.bytes_needed Utf8.code_point
                 Utf8.lower_boundary Utf8.upper_boundary];
            weigh;
            destruct (N.eqb_spec b 0xE0), (N.eqb_spec b 0xED); lia).
  all: destruct (N.leb_spec 0xF0 b), (N.leb_spec b 0xF4); cbn [andb].
  all: try discriminate.
  all: intros E; injection E as <-; right;
    cbn [Utf8.bytes_seen Utf8.bytes_needed Utf8.code_point
         Utf8.lower_boundary Utf8.upper_boundary];
    weigh;
    destruct (N.eqb_spec b 0xF0), (N.eqb_spec b 0xF4); lia.
Qed.

Lemma continuation_pending_ok (st : Utf8.state) (b : byte) :
  pending_ok st ->
  Utf8.bytes_needed st <> 0%N ->
  (Utf8.lower_boundary st <= b <= Utf8.upper_boundary st)%N ->
  let cp := (Utf8.code_point st * 64 + b mod 64)%N in
  if (Utf8.bytes_seen st + 1 =? Utf8.bytes_needed st)%N
  then is_scalar_value cp = true
  else pending_ok
         {| Utf8.code_point := cp;
            Utf8.bytes_seen := Utf8.bytes_seen st + 1;
            Utf8.bytes_needed := Utf8.bytes_needed st;
            Utf8.lower_boundary := 0x80; Utf8.upper_boundary := 0xBF |}.
Proof.
  intros [H0 | (Hn & Hlo & Hhi & Hrange)] Hne Hb; [congruence |].
  destruct st as [c seen needed lo hi]. cbn in *.
  assert (Hcases :
            ((needed = 1 /\ seen = 0) \/ (needed = 2 /\ seen = 0)
             \/ (needed = 2 /\ seen = 1) \/ (needed = 3 /\ seen = 0)
             \/ (needed = 3 /\ seen = 1) \/ (needed = 3 /\ seen = 2))%N)
    by lia.
  destruct Hcases as [[-> ->] | [[-> ->] | [[-> ->] | [[-> ->]
                     | [[-> ->] | [-> ->]]]]]];
    cbn in *; weigh;
    try (apply scalar_value_range; lia);
    right; cbn; weigh; lia.
Qed.

(** The decoder emits scalar values only, whatever the bytes. *)
Lemma decode_from_scalar (bytes : list byte) (st : Utf8.state) :
  pending_ok st ->
  forallb is_scalar_value (Utf8.decode_from st bytes) = true.
Proof.
  revert st. induction bytes as [|b rest IH]; intros st Hst.
  - cbn [Utf8.decode_from].
    destruct (Utf8.bytes_needed st =? 0)%N; reflexivity.
  - assert (Hlead :
              forallb is_scalar_value
                match Utf8.lead b with
                | Utf8.Emit cp => cp :: Utf8.decode_from Utf8.initial rest
                | Utf8.Continue st' => Utf8.decode_from st' rest
                | Utf8.Malformed =>
                    Utf8.replacement :: Utf8.decode_from Utf8.initial rest
                end = true).
    { destruct (Utf8.lead b) as [cp | st' |] eqn:El.
      - cbn [forallb]. rewrite (IH _ pending_ok_initial), andb_true_r.
        unfold Utf8.lead in El.
        destruct (N.leb_spec b 0x7F);
          [| destruct ((0xC2 <=? b) && (b <=? 0xDF))%N;
             [discriminate
             | destruct ((0xE0 <=? b) && (b <=? 0xEF))%N;
               [discriminate
               | destruct ((0xF0 <=? b) && (b <=? 0xF4))%N; discriminate]]].
        injection El as <-. apply scalar_value_range. lia.
      - apply IH. apply (lead_pending_ok b). exact El.
      - cbn [forallb]. rewrite (IH _ pending_ok_initial). reflexivity. }
    cbn [Utf8.decode_from]. cbv zeta.
    destruct (N.eqb_spec (Utf8.bytes_needed st) 0) as [Hz | Hnz];
      [exact Hlead |].
    destruct (N.ltb_spec b (Utf8.lower_boundary st)) as [Hlo | Hlo];
      [cbn [orb forallb]; rewrite Hlead; reflexivity |].
    destruct (N.ltb_spec (Utf8.upper_boundary st) b) as [Hhi | Hhi];
      [cbn [orb forallb]; rewrite Hlead; reflexivity |].
    cbn [orb].
    rewrite shiftl_6, land_3F, lor_64 by (apply N.mod_lt; discriminate).
    pose proof (continuation_pending_ok st b Hst Hnz (conj Hlo Hhi)) as Hk.
    cbv zeta in Hk.
    destruct (Utf8.bytes_seen st + 1 =? Utf8.bytes_needed st)%N.
    + cbn [forallb]. rewrite Hk. apply IH, pending_ok_initial.
    + apply IH, Hk.
Qed.

Lemma utf16_well_formed (cps : list N) :
  forallb is_scalar_value cps = true ->
  well_formed (flat_map Utf8.utf16 cps) = true.
Proof.
  induction cps as [|cp cps IH]; [reflexivity |].
  cbn [forallb flat_map]. rewrite andb_true_iff. intros [Hcp Hcps].
  specialize (IH Hcps). apply scalar_value_range in Hcp.
  destruct (N.ltb_spec cp 0x10000) as [Hs | Hs].
  - assert (Hu : Utf8.utf16 cp = [cp]).
    { unfold Utf8.utf16. destruct (N.ltb_spec cp 0x10000); [reflexivity | lia]. }
    rewrite Hu. cbn [app well_formed]. rewrite IH.
    unfold Utf8Encode.is_lead_surrogate, Utf8Encode.is_trail_surrogate.
    destruct (N.leb_spec 0xD800 cp), (N.leb_spec cp 0xDBFF),
      (N.leb_spec 0xDC00 cp), (N.leb_spec cp 0xDFFF); try lia;
      cbn [andb negb];
      destruct (N.ltb_spec cp 0x10000); try lia; reflexivity.
  - assert (Hu : Utf8.utf16 cp
                 = [0xD800 + (cp - 0x10000) / 1024;
                    0xDC00 + (cp - 0x10000) mod 1024]%N).
    { unfold Utf8.utf16. destruct (N.ltb_spec cp 0x10000); [lia |].
      rewrite N.shiftr_div_pow2.
      change 0x3FF%N with (N.ones 10). rewrite N.land_ones. reflexivity. }
    rewrite Hu. cbn [app well_formed]. rewrite IH.
    unfold Utf8Encode.is_lead_surrogate, Utf8Encode.is_trail_surrogate.
    destruct (N.leb_spec 0xD800 (0xD800 + (cp - 0x10000) / 1024)); [| lia].
    destruct (N.leb_spec (0xD800 + (cp - 0x10000) / 1024) 0xDBFF); [| lia].
    destruct (N.leb_spec 0xDC00 (0xDC00 + (cp - 0x10000) mod 1024)); [| lia].
    destruct (N.leb_spec (0xDC00 + (cp - 0x10000) mod 1024) 0xDFFF); [| lia].
    reflexivity.
Qed.

Lemma decode_well_formed (bytes : list byte) :
  well_formed (Utf8.decode bytes) = true.
Proof.
  apply utf16_well_formed, decode_from_scalar, pending_ok_initial.
Qed.

(** Every name and value that the parser returns is a well-formed
    string, whatever the query string. *)
Lemma parse_well_formed (input : list byte) :
  well_formed_params (URLSearchParams.parse input) = true.
Proof.
  rewrite parse_eq. unfold well_formed_params.
  induction (URLSearchParams.split_on 0x26%N input) as [|bytes seqs IH];
    [reflexivity |].
  cbn [flat_map]. rewrite forallb_app, IH, andb_true_r.
  unfold parse_sequence. destruct bytes as [|b bytes]; [reflexivity |].
  destruct (URLSearchParams.break_at 0x3D%N (b :: bytes)) as [name value].
  cbn [forallb fst snd]. unfold URLSearchParams.decode_component.
  rewrite !decode_well_formed. reflexivity.
Qed.

Lemma new_well_formed (init : string) :
  well_formed_params (URLSearchParams.new init) = true.
Proof. apply parse_well_formed. Qed.

Lemma set_well_formed (searchParams : URLSearchParams.t)
  (name value : jsstring) :
  well_formed_params searchParams = true ->
  well_formed name = true -> well_formed value = true ->
  well_formed_params (URLSearchParamsWrite.set searchParams name value)
  = true.
Proof.
  intros Hsp Hn Hv. unfold well_formed_params in *.
  induction searchParams as [|[n v] rest IH];
    cbn [URLSearchParamsWrite.set].
  - cbn [forallb fst snd]. rewrite Hn, Hv. reflexivity.
  - cbn [forallb fst snd] in Hsp. rewrite !andb_true_iff in Hsp.
    destruct Hsp as [[Hn' Hv'] Hrest].
    destruct (JsString.eqb n name).
    + cbn [forallb fst snd]. rewrite Hn', Hv. cbn [andb].
      unfold URLSearchParamsWrite.remove.
      apply forallb_forall. intros pair Hin.
      apply filter_In in Hin. destruct Hin as [Hin _].
      rewrite forallb_forall in Hrest. apply Hrest, Hin.
    + cbn [forallb fst snd]. rewrite Hn', Hv', IH by assumption.
      reflexivity.
Qed.

(* ================================================================== *)
(** ** Writing a number and reading it back *)
(* ================================================================== *)

Lemma decimal_cons (d : code_unit) (ds : jsstring) :
  decimal (d :: ds)
  = ((Z.of_N d - 0x30) * 10 ^ Z.of_nat (List.length ds) + decimal ds)%Z.
Proof. reflexivity. Qed.

Lemma digit_char (r : Z) :
  (0 <= r < 10)%Z ->
  is_decimal_digit (Z.to_N (0x30 + r)) = true /\
  (Z.of_N (Z.to_N (0x30 + r)) - 0x30 = r)%Z.
Proof.
  intros Hr. split.
  - apply decimal_digit_bounds. lia.
  - lia.
Qed.

(** The digits written for [n] are decimal digits, and they denote
    [n]. *)
Lemma digits_from_spec (fuel : nat) (n : Z) (acc : jsstring) :
  (0 <= n < 10 ^ Z.of_nat (S fuel))%Z ->
  forallb is_decimal_digit acc = true ->
  let ds := NumberToString.digits_from fuel n acc in
  ds <> [] /\
  forallb is_decimal_digit ds = true /\
  decimal ds = (n * 10 ^ Z.of_nat (List.length acc) + decimal acc)%Z.
Proof.
  revert n acc. induction fuel as [|fuel IH]; intros n acc Hn Hacc.
  - change (10 ^ Z.of_nat 1)%Z with 10%Z in Hn.
    destruct (digit_char (n mod 10)) as [Hd Hv]; [lia |].
    cbn [NumberToString.digits_from]. cbv zeta.
    split; [discriminate |]. split.
    + cbn [forallb]. rewrite Hd, Hacc. reflexivity.
    + rewrite decimal_cons, Hv. replace (n mod 10)%Z with n by lia.
      reflexivity.
  - destruct (digit_char (n mod 10)) as [Hd Hv]; [lia |].
    cbn [NumberToString.digits_from]. cbv zeta.
    destruct (Z.ltb_spec n 10) as [Hlt | Hge].
    + split; [discriminate |]. split.
      * cbn [forallb]. rewrite Hd, Hacc. reflexivity.
      * rewrite decimal_cons, Hv. replace (n mod 10)%Z with n by lia.
        reflexivity.
    + assert (Hq : (0 <= n / 10 < 10 ^ Z.of_nat (S fuel))%Z).
      { replace (Z.of_nat (S (S fuel))) with (Z.succ (Z.of_nat (S fuel)))
          in Hn by lia.
        rewrite Z.pow_succ_r in Hn by lia. lia. }
      assert (Hacc' : forallb is_decimal_digit
                        (Z.to_N (0x30 + n mod 10) :: acc) = true)
        by (cbn [forallb]; rewrite Hd, Hacc; reflexivity).
      destruct (IH (n / 10)%Z _ Hq Hacc') as (Hne & Hall & Hval).
      split; [exact Hne |]. split; [exact Hall |].
      rewrite Hval, decimal_cons, Hv.
      simpl List.length. rewrite Nat2Z.inj_succ, Z.pow_succ_r by lia.
      rewrite (Z.div_mod n 10) at 3 by lia. ring.
Qed.

Lemma decimal_digits_spec (n : Z) :
  (0 <= n)%Z ->
  let ds := NumberToString.decimal_digits n in
  ds <> [] /\ forallb is_decimal_digit ds = true /\ decimal ds = n.
Proof.
  intros Hn. unfold NumberToString.decimal_digits.
  assert (Hfuel : (0 <= n < 10 ^ Z.of_nat (S (Z.to_nat (Z.log2 n))))%Z).
  { split; [exact Hn |].
    pose proof (Z.log2_nonneg n) as Hl.
    replace (Z.of_nat (S (Z.to_nat (Z.log2 n)))) with (Z.succ (Z.log2 n))
      by lia.
    destruct (Z.eq_dec n 0) as [-> | Hnz].
    - reflexivity.
    - apply Z.lt_le_trans with (2 ^ Z.succ (Z.log2 n))%Z.
      + apply Z.log2_spec. lia.
      + apply Z.pow_le_mono_l. lia. }
  destruct (digits_from_spec _ n [] Hfuel eq_refl) as (Hne & Hall & Hval).
  split; [exact Hne |]. split; [exact Hall |].
  rewrite Hval. cbn [List.length decimal]. change (10 ^ Z.of_nat 0)%Z with 1%Z.
  lia.
Qed.

Lemma numeral_well_formed (ds : jsstring) :
  forallb is_decimal_digit ds = true -> well_formed ds = true.
Proof.
  induction ds as [|d ds IH]; [reflexivity |].
  cbn [forallb]. rewrite andb_true_iff, decimal_digit_bounds.
  intros [Hd Hds]. cbn [well_formed]. rewrite (IH Hds).
  unfold Utf8Encode.is_lead_surrogate, Utf8Encode.is_trail_surrogate.
  destruct (N.leb_spec 0xD800 d); [lia |].
  destruct (N.leb_spec 0xDC00 d); [lia |]. cbn [andb negb].
  destruct (N.ltb_spec d 0x10000); [reflexivity | lia].
Qed.

Lemma parseInt_toString (z : Z) :
  (Z.abs z <= 2 ^ 53)%Z ->
  let s := NumberOps.toString (Int z) in
  well_formed s = true /\
  integer_string s = Some z /\
  parseInt s = Int z.
Proof.
  intros Hz. cbv zeta. unfold NumberOps.toString.
  destruct (Z.eqb_spec z 0) as [-> | Hnz]; [repeat split |].
  destruct (Z.ltb_spec z 0) as [Hneg | Hpos].
  - unfold NumberToString.of_positive.
    destruct (Z.leb_spec (- z) (2 ^ 53)); [| lia].
    destruct (decimal_digits_spec (- z)) as (Hne & Hall & Hval); [lia |].
    split; [| split].
    + cbn [well_formed].
      change (Utf8Encode.is_lead_surrogate (chr "-")) with false.
      change (Utf8Encode.is_trail_surrogate (chr "-")) with false.
      change (chr "-" <? 0x10000)%N with true. cbn [negb andb].
      apply numeral_well_formed, Hall.
    + unfold integer_string. rewrite N.eqb_refl. unfold numeral.
      destruct (NumberToString.decimal_digits (- z)); [congruence |].
      rewrite Hall, Hval. cbn [option_map]. f_equal. lia.
    + rewrite parseInt_minus, parse_digits_whole, Hval by assumption.
      unfold signed_number.
      destruct (Z.eqb_spec (- z) 0); [lia |].
      rewrite of_Z_exact by lia. f_equal. lia.
  - unfold NumberToString.of_positive.
    destruct (Z.leb_spec z (2 ^ 53)); [| lia].
    destruct (decimal_digits_spec z) as (Hne & Hall & Hval); [lia |].
    split; [| split].
    + apply numeral_well_formed, Hall.
    + unfold integer_string.
      destruct (NumberToString.decimal_digits z) as [|d ds] eqn:E;
        [congruence |].
      cbn [forallb] in Hall. apply andb_true_iff in Hall.
      destruct Hall as [Hd Hds].
      destruct (decimal_digit_not_sign d Hd) as [-> ->].
      unfold numeral. cbn [forallb]. rewrite Hd, Hds, Hval. reflexivity.
    + rewrite parseInt_whole, Hval by assumption.
      unfold signed_number.
      destruct (Z.eqb_spec z 0); [lia |].
      rewrite of_Z_exact by lia. f_equal. lia.
Qed.

(** [toString] of an integer up to [2^53] in magnitude is its decimal
    notation, a valid integer string, and [parseInt] reads it back as the
    same Number. *)
Theorem toString_read_back (z : Z) :
  (Z.abs z <= 2 ^ 53)%Z ->
  integer_string (NumberOps.toString (Int z)) = Some z /\
  parseInt (NumberOps.toString (Int z)) = Int z.
Proof.
  intros Hz. destruct (parseInt_toString z Hz) as (_ & H1 & H2).
  split; assumption.
Qed.

Lemma toString_read_back_witness :
  integer_string (NumberOps.toString (Int (-9007199254740992)))
  = Some (-9007199254740992)%Z /\
  parseInt (NumberOps.toString (Int (-9007199254740992)))
  = Int (-9007199254740992).
Proof.
  apply (toString_read_back (-9007199254740992)).
  vm_compute. discriminate.
Defined.

(* ================================================================== *)
(** ** The handlers and the next request *)
(* ================================================================== *)

Lemma new_navigate (location_search : string) (name value : jsstring) :
  well_formed name = true -> well_formed value = true ->
  URLSearchParams.new (navigate location_search name value)
  = URLSearchParamsWrite.set (URLSearchParams.new location_search)
                             name value.
Proof.
  intros Hn Hv. unfold navigate.
  assert (Hwf : well_formed_params
                  (URLSearchParamsWrite.set
                     (URLSearchParams.new location_search) name value)
                = true)
    by (apply set_well_formed;
        [apply new_well_formed | assumption | assumption]).
  rewrite new_search_parse by (apply serialize_bytes; assumption).
  apply parse_serialize, Hwf.
Qed.

(** What the next request reads after a handler has set a parameter and
    sent the browser to the new address: under the name that was set,
    the value; under any other name, what the current address has. This
    holds for every current address, whatever its bytes. *)
Theorem next_request_reads (location_search : string)
  (name value key : jsstring) :
  well_formed name = true -> well_formed value = true ->
  URLSearchParams.get
    (URLSearchParams.new (navigate location_search name value)) key
  = if JsString.eqb key name then Some value
    else URLSearchParams.get (URLSearchParams.new location_search) key.
Proof.
  intros Hn Hv. rewrite new_navigate by assumption. apply get_set.
Qed.

Lemma next_request_reads_witness :
  URLSearchParams.get
    (URLSearchParams.new
       (navigate "?q=%E2%82%AC+1&sortKey=A&sortKey=B%ff" (str "sortKey")
                 (str "PRICE")))
    (str "q")
  = Some [0x20AC; 0x20; 0x31]%N.
Proof.
  rewrite (next_request_reads "?q=%E2%82%AC+1&sortKey=A&sortKey=B%ff"
             (str "sortKey") (str "PRICE") (str "q") eq_refl eq_refl).
  reflexivity.
Defined.

Ltac literal_keys :=
  repeat match goal with
         | |- context [JsString.eqb (str ?a) (str ?b)] =>
             let v := eval vm_compute in (JsString.eqb (str a) (str b)) in
             change (JsString.eqb (str a) (str b)) with v
         end; cbv iota.

Section Handlers.

Variable Product : Type.

(** Choosing a sort key: the next request has it as [sortKey], and the
    same [query], [reverse] and [count] as the current address. *)
Theorem sortKey_onChange_next (location_search : string)
  (target_value : jsstring) :
  well_formed target_value = true ->
  exists current next,
    @loader_params Product (URLSearchParams.new location_search)
    = Ret current /\
    @loader_params Product
      (URLSearchParams.new (sortKey_onChange location_search target_value))
    = Ret next /\
    QueryParameters.sortKey next = target_value /\
    QueryParameters.query next = QueryParameters.query current /\
    QueryParameters.reverse next = QueryParameters.reverse current /\
    QueryParameters.count next = QueryParameters.count current.
Proof.
  intros Hv. unfold sortKey_onChange.
  eexists; eexists. split; [apply loader_params_eq |].
  split; [apply loader_params_eq |].
  cbn [QueryParameters.sortKey QueryParameters.query QueryParameters.reverse
       QueryParameters.count].
  rewrite !new_navigate, !get_set by (reflexivity || assumption).
  literal_keys. repeat split; reflexivity.
Qed.

(** Choosing a page size: the next request reads the chosen value as its
    [count], with the same [query], [sortKey] and [reverse]. *)
Theorem count_onChange_next (location_search : string)
  (target_value : jsstring) :
  well_formed target_value = true ->
  exists current next,
    @loader_params Product (URLSearchParams.new location_search)
    = Ret current /\
    @loader_params Product
      (URLSearchParams.new (count_onChange location_search target_value))
    = Ret next /\
    QueryParameters.count next = parseInt target_value /\
    QueryParameters.query next = QueryParameters.query current /\
    QueryParameters.sortKey next = QueryParameters.sortKey current /\
    QueryParameters.reverse next = QueryParameters.reverse current.
Proof.
  intros Hv. unfold count_onChange.
  eexists; eexists. split; [apply loader_params_eq |].
  split; [apply loader_params_eq |].
  cbn [QueryParameters.sortKey QueryParameters.query QueryParameters.reverse
       QueryParameters.count].
  rewrite !new_navigate, !get_set by (reflexivity || assumption).
  literal_keys. repeat split; reflexivity.
Qed.

Lemma loadMore_onClick_next (searchParams : PageParams.t)
  (location_search : string) (z : Z) :
  PageParams.count searchParams = Some (Int z) ->
  (Z.abs (z + 12) <= 2 ^ 53)%Z ->
  exists current next,
    @loader_params Product (URLSearchParams.new location_search)
    = Ret current /\
    @loader_params Product
      (URLSearchParams.new (loadMore_onClick searchParams location_search))
    = Ret next /\
    QueryParameters.count next = Int (z + 12) /\
    QueryParameters.query next = QueryParameters.query current /\
    QueryParameters.sortKey next = QueryParameters.sortKey current /\
    QueryParameters.reverse next = QueryParameters.reverse current.
Proof.
  intros Hc Hz. unfold loadMore_onClick. rewrite Hc.
  assert (Hadd : NumberOps.add_literal (Some (Int z)) 12 = Int (z + 12)).
  { unfold NumberOps.add_literal.
    destruct (Z.eqb_spec (z + 12) 0) as [-> | Hnz]; [reflexivity |].
    apply of_Z_exact, Hz. }
  rewrite Hadd.
  destruct (parseInt_toString (z + 12) Hz) as (Hwf & _ & Hparse).
  eexists; eexists. split; [apply loader_params_eq |].
  split; [apply loader_params_eq |].
  cbn [QueryParameters.sortKey QueryParameters.query QueryParameters.reverse
       QueryParameters.count].
  rewrite !new_navigate, !get_set by (reflexivity || assumption).
  literal_keys. repeat split; try reflexivity. exact Hparse.
Qed.

End Handlers.

(* ================================================================== *)
(** ** The page *)
(* ================================================================== *)

Section Page.

Variable Product : Type.
Variable isProduction : bool.

(** What the component makes of a response, by the JSON of its count. *)
Lemma page_of_response (response : Response Product) :
  let data := body response in
  let searchParams := LoaderData.searchParams data in
  ProductsApiRoute (useLoaderData response)
  = match NumberOps.json (QueryParameters.count searchParams) with
    | None => inr (CannotReadPropertiesOfNull "toString")
    | Some count =>
        inl {| heading :=
                 match QueryParameters.query searchParams with
                 | [] => str "All Products"
                 | query => str "Products for " ++ 0x22%N :: query ++ [0x22%N]
                 end;
               found := List.length (LoaderData.products data);
               sortKey_defaultValue := QueryParameters.sortKey searchParams;
               count_defaultValue := NumberOps.toString count;
               no_products_found :=
                 Nat.eqb (List.length (LoaderData.products data)) 0;
               grid := LoaderData.products data;
               load_more :=
                 NumberOps.length_ge (List.length (LoaderData.products data))
                                     (Some count) |}
    end.
Proof. reflexivity. Qed.

(** The component returns its markup exactly when the loader's [count]
    is a finite number; when it is [NaN] or an infinity, the JSON of the
    response holds [null] and [searchParams.count.toString()] throws a
    [TypeError]. *)
Theorem page_renders_iff_finite (response : Response Product) :
  let count :=
    QueryParameters.count (LoaderData.searchParams (body response)) in
  ((exists view, ProductsApiRoute (useLoaderData response) = inl view) <->
   Number.value count <> None) /\
  (ProductsApiRoute (useLoaderData response)
   = inr (CannotReadPropertiesOfNull "toString") <->
   Number.value count = None).
Proof.
  cbv zeta. rewrite page_of_response. cbv zeta.
  destruct (QueryParameters.count (LoaderData.searchParams (body response)))
    as [| | z | negative]; cbn [NumberOps.json Number.value].
  - split; split; try reflexivity; try congruence.
    intros [view H]. discriminate H.
  - split; split; try discriminate; try congruence.
    intros _. eexists. reflexivity.
  - split; split; try discriminate; try congruence.
    intros _. eexists. reflexivity.
  - split; split; try reflexivity; try congruence.
    intros [view H]. discriminate H.
Qed.

(** A request whose [count] is present but does not start a number makes
    the page throw: whatever products the storefront answers with, the
    response carries [NaN], which reaches the component as [null]. *)
Theorem page_throws_for_non_numeric_count (args : LoaderFunctionArgs)
  (client : string -> QueryOptions -> QueryResult Product)
  (s : jsstring) (response : Response Product) :
  URLSearchParams.get (URLSearchParams.new (url_search (request args)))
                      (str "count") = Some s ->
  no_number_start s = true ->
  snd (run client (loader isProduction args)) = inl response ->
  ProductsApiRoute (useLoaderData response)
  = inr (CannotReadPropertiesOfNull "toString").
Proof.
  intros Hget Hs Hrun.
  apply run_returns_params in Hrun.
  rewrite loader_params_eq, Hget in Hrun. injection Hrun as Hparams.
  rewrite page_of_response. cbv zeta. rewrite <- Hparams.
  cbn [QueryParameters.count].
  rewrite (parseInt_not_a_number s Hs). reflexivity.
Qed.

(** From one page to the next: when a run of the loader returned the
    count [z], the page renders; it offers "Load More Products" exactly
    when at least [z] products came back; and that button leads to a
    request for which the loader has the count [z + 12] and the same
    [query], [sortKey] and [reverse] (for [z + 12] at most [2^53] in
    magnitude). *)
Theorem load_more_raises_count (args : LoaderFunctionArgs)
  (client : string -> QueryOptions -> QueryResult Product)
  (response : Response Product) (z : Z) :
  snd (run client (loader isProduction args)) = inl response ->
  QueryParameters.count (LoaderData.searchParams (body response)) = Int z ->
  (Z.abs (z + 12) <= 2 ^ 53)%Z ->
  let shown := LoaderData.searchParams (body response) in
  let page := useLoaderData response in
  exists view next,
    ProductsApiRoute page = inl view /\
    load_more view
    = (z <=? Z.of_nat (List.length (LoaderData.products (body response))))%Z
    /\
    @loader_params Product
      (URLSearchParams.new
         (loadMore_onClick (snd page) (url_search (request args))))
    = Ret next /\
    QueryParameters.count next = Int (z + 12) /\
    QueryParameters.query next = QueryParameters.query shown /\
    QueryParameters.sortKey next = QueryParameters.sortKey shown /\
    QueryParameters.reverse next = QueryParameters.reverse shown.
Proof.
  intros Hrun Hc Hz. cbv zeta.
  apply run_returns_params in Hrun. rename Hrun into Hparams.
  assert (Hpage : PageParams.count (snd (useLoaderData response))
                  = Some (Int z)).
  { unfold useLoaderData. cbn [snd PageParams.count]. rewrite Hc.
    reflexivity. }
  destruct (loadMore_onClick_next Product (snd (useLoaderData response))
              (url_search (request args)) z Hpage Hz)
    as (current & next & Hcur & Hnext & Hcount & Hq & Hs & Hr).
  rewrite Hparams in Hcur. injection Hcur as <-.
  pose proof (page_of_response response) as Hv. cbv zeta in Hv.
  rewrite Hc in Hv. cbn [NumberOps.json] in Hv.
  eexists. exists next. split; [exact Hv |].
  split; [reflexivity |]. repeat split; assumption.
Qed.

End Page.

(** The tag badges account for every tag: there are badges exactly when
    there is a tag, at most three tags are shown, they are the first
    ones in order, and the "+n" badge is there exactly when there are
    more than three tags, with the number of the tags not shown. *)
Theorem tag_badges_cover (tags : list jsstring) :
  match tag_badges (Some tags) with
  | None => tags = []
  | Some (shown, more) =>
      tags <> [] /\
      (List.length shown <= 3)%nat /\
      shown ++ skipn 3 tags = tags /\
      List.length (skipn 3 tags) = nullish more 0%nat /\
      (more = None <-> (List.length tags <= 3)%nat)
  end.
Proof.
  unfold tag_badges.
  destruct (Nat.ltb_spec 0 (List.length tags)) as [Hpos | Hzero].
  - split; [intros ->; simpl in Hpos; lia |].
    split; [rewrite length_firstn; lia |].
    split; [apply firstn_skipn |].
    rewrite length_skipn.
    destruct (Nat.ltb_spec 3 (List.length tags)); cbn [nullish].
    + split; [reflexivity |]. split; [discriminate | lia].
    + split; [lia |]. split; [intros _; assumption | reflexivity].
  - destruct tags; [reflexivity | simpl in Hzero; lia].
Qed.

(* ================================================================== *)
(** ** Instances *)
(* ================================================================== *)

Lemma loader_reads_four_keys_witness :
  run two_products_client
      (loader false (sample_args "?count=8&utm=mail&count=99&page=3"))
  = run two_products_client (loader false (sample_args "?count=8")).
Proof.
  apply (loader_reads_four_keys unit false
           (sample_args "?count=8&utm=mail&count=99&page=3")
           (sample_args "?count=8") two_products_client).
  - reflexivity.
  - intros key [<- | [<- | [<- | [<- | []]]]]; reflexivity.
Defined.

Lemma loader_response_witness :
  snd (run two_products_client (loader false (sample_args "?query=hat")))
  = inl {| status := 200;
           body :=
             {| LoaderData.products := [tt; tt];
                LoaderData.searchParams :=
                  {| QueryParameters.query := str "hat";
                     QueryParameters.sortKey := str "BEST_SELLING";
                     QueryParameters.reverse := false;
                     QueryParameters.count := Int 12 |} |} |}.
Proof.
  apply (proj2 (loader_response unit false (sample_args "?query=hat")
                  two_products_client _)).
  exists {| nodes := [tt; tt] |}. repeat split; reflexivity.
Defined.

Lemma sortKey_onChange_next_witness :
  exists current next,
    @loader_params unit (URLSearchParams.new "?query=caf%C3%A9&count=24")
    = Ret current /\
    @loader_params unit
      (URLSearchParams.new
         (sortKey_onChange "?query=caf%C3%A9&count=24" (str "PRICE")))
    = Ret next /\
    QueryParameters.sortKey next = str "PRICE" /\
    QueryParameters.query next = QueryParameters.query current /\
    QueryParameters.reverse next = QueryParameters.reverse current /\
    QueryParameters.count next = QueryParameters.count current.
Proof.
  apply (sortKey_onChange_next unit "?query=caf%C3%A9&count=24" (str "PRICE")).
  reflexivity.
Defined.

Lemma count_onChange_next_witness :
  exists current next,
    @loader_params unit (URLSearchParams.new "?sortKey=TITLE&count=abc")
    = Ret current /\
    @loader_params unit
      (URLSearchParams.new
         (count_onChange "?sortKey=TITLE&count=abc" (str "48")))
    = Ret next /\
    QueryParameters.count next = parseInt (str "48") /\
    QueryParameters.query next = QueryParameters.query current /\
    QueryParameters.sortKey next = QueryParameters.sortKey current /\
    QueryParameters.reverse next = QueryParameters.reverse current.
Proof.
  apply (count_onChange_next unit "?sortKey=TITLE&count=abc" (str "48")).
  reflexivity.
Defined.

Lemma loadMore_onClick_next_instance :
  exists current next,
    @loader_params unit (URLSearchParams.new "?query=hat&count=-20")
    = Ret current /\
    @loader_params unit
      (URLSearchParams.new
         (loadMore_onClick
            {| PageParams.query := str "hat";
               PageParams.sortKey := str "BEST_SELLING";
               PageParams.reverse := false;
               PageParams.count := Some (Int (-20)) |}
            "?query=hat&count=-20"))
    = Ret next /\
    QueryParameters.count next = Int (-20 + 12) /\
    QueryParameters.query next = QueryParameters.query current /\
    QueryParameters.sortKey next = QueryParameters.sortKey current /\
    QueryParameters.reverse next = QueryParameters.reverse current.
Proof.
  apply (loadMore_onClick_next unit
           {| PageParams.query := str "hat";
              PageParams.sortKey := str "BEST_SELLING";
              PageParams.reverse := false;
              PageParams.count := Some (Int (-20)) |}
           "?query=hat&count=-20" (-20)).
  - reflexivity.
  - vm_compute. discriminate.
Defined.

Lemma page_renders_iff_finite_witness :
  ProductsApiRoute
    (useLoaderData
       {| status := 200;
          body :=
            {| LoaderData.products := [tt];
               LoaderData.searchParams :=
                 {| QueryParameters.query := str "";
                    QueryParameters.sortKey := str "BEST_SELLING";
                    QueryParameters.reverse := false;
                    QueryParameters.count := NaN |} |} |})
  = inr (CannotReadPropertiesOfNull "toString").
Proof.
  apply (proj2 (proj2 (page_renders_iff_finite unit
                         {| status := 200;
                            body :=
                              {| LoaderData.products := [tt];
                                 LoaderData.searchParams :=
                                   {| QueryParameters.query := str "";
                                      QueryParameters.sortKey :=
                                        str "BEST_SELLING";
                                      QueryParameters.reverse := false;
                                      QueryParameters.count := NaN |} |} |}))).
  reflexivity.
Defined.

Lemma page_throws_for_non_numeric_count_witness :
  ProductsApiRoute
    (useLoaderData
       {| status := 200;
          body :=
            {| LoaderData.products := [tt; tt];
               LoaderData.searchParams :=
                 {| QueryParameters.query := str "";
                    QueryParameters.sortKey := str "BEST_SELLING";
                    QueryParameters.reverse := false;
                    QueryParameters.count := NaN |} |} |})
  = inr (CannotReadPropertiesOfNull "toString").
Proof.
  apply (page_throws_for_non_numeric_count unit false
           (sample_args "?count=abc") two_products_client (str "abc")).
  - reflexivity.
  - reflexivity.
  - reflexivity.
Defined.

Lemma load_more_raises_count_witness :
  exists view next,
    ProductsApiRoute
      (useLoaderData
         {| status := 200;
            body :=
              {| LoaderData.products := [tt; tt];
                 LoaderData.searchParams :=
                   {| QueryParameters.query := str "hat";
                      QueryParameters.sortKey := str "BEST_SELLING";
                      QueryParameters.reverse := false;
                      QueryParameters.count := Int 2 |} |} |})
    = inl view /\
    load_more view = true /\
    @loader_params unit
      (URLSearchParams.new
         (loadMore_onClick
            {| PageParams.query := str "hat";
               PageParams.sortKey := str "BEST_SELLING";
               PageParams.reverse := false;
               PageParams.count := Some (Int 2) |}
            "?query=hat&count=2"))
    = Ret next /\
    QueryParameters.count next = Int 14.
Proof.
  destruct (load_more_raises_count unit false
              (sample_args "?query=hat&count=2") two_products_client
              _ 2 eq_refl eq_refl)
    as (view & next & Hview & Hmore & Hnext & Hcount & _).
  - vm_compute. discriminate.
  - exists view, next. split; [exact Hview |].
    split; [exact Hmore | split; [exact Hnext | exact Hcount]].
Defined.

(* ================================================================== *)
(** ** More on what the loader reads *)
(* ================================================================== *)

Lemma get_well_formed (searchParams : URLSearchParams.t)
  (name value : jsstring) :
  well_formed_params searchParams = true ->
  URLSearchParams.get searchParams name = Some value ->
  well_formed value = true.
Proof.
  unfold well_formed_params.
  induction searchParams as [|[n v] rest IH]; [discriminate |].
  cbn [forallb fst snd URLSearchParams.get]. rewrite !andb_true_iff.
  intros [[_ Hv] Hrest].
  destruct (JsString.eqb n name); [| apply IH, Hrest].
  intros E. injection E as <-. exact Hv.
Qed.

Section Sent.

Variable Product : Type.

(** Whatever bytes the query string of the request holds, the [query]
    and [sortKey] that the loader sends to the storefront and returns
    are well-formed strings: a malformed UTF-8 sequence has become
    U+FFFD, and no surrogate stands alone. *)
Theorem loader_strings_well_formed (search : string) :
  exists params,
    @loader_params Product (URLSearchParams.new search) = Ret params /\
    well_formed (QueryParameters.query params) = true /\
    well_formed (QueryParameters.sortKey params) = true.
Proof.
  eexists. split; [apply loader_params_eq |].
  cbn [QueryParameters.query QueryParameters.sortKey].
  pose proof (new_well_formed search) as Hwf.
  split.
  - destruct (URLSearchParams.get _ (str "query")) as [v|] eqn:E;
      [| reflexivity].
    cbn [nullish]. apply (get_well_formed _ _ _ Hwf E).
  - destruct (URLSearchParams.get _ (str "sortKey")) as [v|] eqn:E;
      [| reflexivity].
    cbn [nullish]. apply (get_well_formed _ _ _ Hwf E).
Qed.

(** Sort and page size can be chosen in either order: the request that
    follows has the same parameters. *)
Theorem sort_and_size_commute (location_search : string)
  (sort size : jsstring) :
  well_formed sort = true -> well_formed size = true ->
  @loader_params Product
    (URLSearchParams.new
       (count_onChange (sortKey_onChange location_search sort) size))
  = @loader_params Product
      (URLSearchParams.new
         (sortKey_onChange (count_onChange location_search size) sort)).
Proof.
  intros Hsort Hsize. unfold count_onChange, sortKey_onChange.
  rewrite !loader_params_eq.
  rewrite !new_navigate, !get_set by (reflexivity || assumption).
  literal_keys. reflexivity.
Qed.

End Sent.

Lemma sort_and_size_commute_witness :
  @loader_params unit
    (URLSearchParams.new
       (count_onChange (sortKey_onChange "?count=1&query=hat" (str "TITLE"))
                       (str "24")))
  = @loader_params unit
      (URLSearchParams.new
         (sortKey_onChange (count_onChange "?count=1&query=hat" (str "24"))
                           (str "TITLE"))).
Proof.
  apply (sort_and_size_commute unit "?count=1&query=hat" (str "TITLE")
           (str "24")); reflexivity.
Defined.

Lemma set_then_get_witness :
  URLSearchParams.get
    (URLSearchParamsWrite.set
       (URLSearchParams.new "?count=8&query=hat&count=9") (str "count")
       (str "24"))
    (str "query")
  = Some (str "hat").
Proof.
  rewrite (proj2 (set_then_get
                    (URLSearchParams.new "?count=8&query=hat&count=9")
                    (str "count") (str "24")) (str "query"));
    [reflexivity | discriminate].
Defined.
